(** * Analytics of the NSE data analyzer ([src/main.py])

    A shallow embedding of the three analytics methods of [NSEDataAnalyzer]
    ([get_top_gainers_losers], [get_52week_analysis], [get_30day_returns])
    together with the pandas and Python operations they call, and the
    properties the specification states about them; then the methods
    around them ([fetch_yfinance_data], [fetch_live_data],
    [get_nifty50_symbols]) and the report [main] builds from all of
    them, with further properties of the code.

    Conventions of the embedding.
    - Numbers are exact: a finite float is a rational ([Q]); rounding and
      overflow of binary64 are not modelled.  The percent-change column,
      which is produced by parsing text, also carries [inf] and [nan].
      Closes are finite, and their arithmetic is Python's: a division by
      zero raises [ZeroDivisionError].  (pandas hands out [numpy.float64]
      scalars for a column of dtype float64; on those a division by zero
      answers [inf] or [nan] with a [RuntimeWarning].  The two agree on
      every other input; non-finite returns are outside the model.)
    - A Python exception is a value of [exn]; code that may raise returns
      [result].  The [logging] calls of the source write to a log file and
      have no influence on any returned value; they are left out.
    - An object the source updates in place is threaded through: a method
      returns the final state of its argument next to its outcome.
    - What lies outside the program (the answers of the API and of
      [yfinance], the frame constructor of pandas, the texts Python
      prints for numbers) is a parameter of the model; the session
      priming, the plot and the files are not modelled beyond whether
      the program reaches them. *)

From Stdlib Require Import QArith Qminmax Lqa.
From Stdlib Require Import Sorting.Sorted Ascii String.
From stdpp Require Import base tactics option list strings gmap sorting.

Open Scope Q_scope.
Open Scope list_scope.
Open Scope stdpp_scope.

(** ** Exceptions and outcomes *)

Module Py.

(** The exceptions the modelled code can raise. *)
Inductive exn : Type :=
| KeyError (key : string)      (* df["col"] on a frame without that column *)
| ValueError (text : string)   (* float() of a string that is no float literal *)
| TypeError                    (* an operation between unrelated types *)
| IndexError                   (* iloc[-k] beyond the start of a series *)
| ZeroDivisionError.           (* x / 0 *)

(** The outcome of a computation: a value, or an exception in flight. *)
Inductive result (A : Type) : Type :=
| Ok (a : A)
| Raise (e : exn).
Arguments Ok {A} a.
Arguments Raise {A} e.

Definition bind {A B} (m : result A) (k : A → result B) : result B :=
  match m with
  | Ok a => k a
  | Raise e => Raise e
  end.

Definition is_ok {A} (m : result A) : bool :=
  match m with Ok _ => true | Raise _ => false end.

(** [[f(x) for x in xs]]: the first exception aborts the whole traversal. *)
Fixpoint traverse {A B} (f : A → result B) (xs : list A) : result (list B) :=
  match xs with
  | [] => Ok []
  | x :: xs' =>
      bind (f x) (λ y, bind (traverse f xs') (λ ys, Ok (y :: ys)))
  end.

End Py.
Export Py.

Notation "'let*' x := m 'in' k" := (Py.bind m (λ x, k))
  (at level 10, x pattern, m at level 100, k at level 200).

(** ** Floats of the percent-change column *)

(** A float as far as the snapshot needs it: a finite value, an infinity
    ([Inf true] is [-inf]) or [nan]. *)
Inductive float : Type :=
| Fin (q : Q)
| Inf (negative : bool)
| NaN.

Definition isna (x : float) : bool :=
  match x with NaN => true | _ => false end.

(** The order numpy sorts floats by: [-inf], the finite values, [+inf],
    and [nan] after everything else. *)
Definition float_leb (x y : float) : bool :=
  match x, y with
  | _, NaN => true
  | NaN, _ => false
  | Inf true, _ => true
  | _, Inf true => false
  | _, Inf false => true
  | Inf false, _ => false
  | Fin a, Fin b => Qle_bool a b
  end.

(** ** [float(str)]: Python's float literal grammar

    [floatvalue ::= [sign] (floatnumber | "inf" | "infinity" | "nan")],
    letters in any case, surrounded by optional white space;
    [floatnumber ::= (digitpart ["." [digitpart]] | "." digitpart) [exponent]],
    [digitpart ::= digit (["_"] digit)*],
    [exponent ::= ("e" | "E") [sign] digitpart]. *)

Module FloatLiteral.

Definition is_space (c : ascii) : bool :=
  let n := nat_of_ascii c in
  ((9 <=? n) && (n <=? 13) || (n =? 32))%nat.

Definition digit_of (c : ascii) : option Z :=
  let n := nat_of_ascii c in
  if ((48 <=? n) && (n <=? 57))%nat then Some (Z.of_nat (n - 48)) else None.

Definition lower (c : ascii) : ascii :=
  let n := nat_of_ascii c in
  if ((65 <=? n) && (n <=? 90))%nat then ascii_of_nat (n + 32) else c.

Fixpoint lstrip (cs : list ascii) : list ascii :=
  match cs with
  | c :: cs' => if is_space c then lstrip cs' else cs
  | [] => []
  end.

Definition strip (cs : list ascii) : list ascii :=
  rev (lstrip (rev (lstrip cs))).

(** The digits that continue a digitpart: a digit, or an underscore
    followed by a digit.  Returns the digits read and the rest. *)
Fixpoint more_digits (cs : list ascii) : list Z * list ascii :=
  match cs with
  | c :: cs' =>
      match digit_of c with
      | Some d => let '(ds, rest) := more_digits cs' in (d :: ds, rest)
      | None =>
          if Ascii.eqb c "_" then
            match cs' with
            | c' :: cs'' =>
                match digit_of c' with
                | Some d => let '(ds, rest) := more_digits cs'' in (d :: ds, rest)
                | None => ([], cs)
                end
            | [] => ([], cs)
            end
          else ([], cs)
      end
  | [] => ([], [])
  end.

(** A digitpart at the head of [cs], if there is one. *)
Definition digitpart (cs : list ascii) : option (list Z * list ascii) :=
  match cs with
  | c :: cs' =>
      match digit_of c with
      | Some d => let '(ds, rest) := more_digits cs' in Some (d :: ds, rest)
      | None => None
      end
  | [] => None
  end.

Definition number_of (ds : list Z) : Z :=
  fold_left (λ acc d, 10 * acc + d)%Z ds 0%Z.

(** An optional sign: [true] for a minus. *)
Definition sign (cs : list ascii) : bool * list ascii :=
  match cs with
  | c :: cs' =>
      if Ascii.eqb c "-" then (true, cs')
      else if Ascii.eqb c "+" then (false, cs')
      else (false, cs)
  | [] => (false, [])
  end.

(** [number]: integer digits, fraction digits and the rest. *)
Definition number (cs : list ascii) : option (list Z * list Z * list ascii) :=
  match digitpart cs with
  | Some (ip, rest) =>
      match rest with
      | c :: rest' =>
          if Ascii.eqb c "." then
            match digitpart rest' with
            | Some (fp, rest'') => Some (ip, fp, rest'')
            | None => Some (ip, [], rest')
            end
          else Some (ip, [], rest)
      | [] => Some (ip, [], [])
      end
  | None =>
      match cs with
      | c :: cs' =>
          if Ascii.eqb c "." then
            match digitpart cs' with
            | Some (fp, rest) => Some ([], fp, rest)
            | None => None
            end
          else None
      | [] => None
      end
  end.

(** [exponent], when present; the literal must end after it. *)
Definition exponent (cs : list ascii) : option Z :=
  match cs with
  | [] => Some 0%Z
  | c :: cs' =>
      if Ascii.eqb (lower c) "e" then
        let '(neg, cs'') := sign cs' in
        match digitpart cs'' with
        | Some (ds, []) => Some (if neg then - number_of ds else number_of ds)%Z
        | _ => None
        end
      else None
  end.

Definition pow10 (e : Z) : Q :=
  match e with
  | Z0 => 1
  | Zpos p => inject_Z (10 ^ Zpos p)
  | Zneg p => 1 # (10 ^ p)
  end.

Definition floatnumber (cs : list ascii) : option Q :=
  match number cs with
  | Some (ip, fp, rest) =>
      match exponent rest with
      | Some e =>
          Some (Qred (inject_Z (number_of (ip ++ fp))
                      * pow10 (e - Z.of_nat (length fp))))
      | None => None
      end
  | None => None
  end.

Definition parse (s : string) : option float :=
  let '(neg, cs) := sign (strip (list_ascii_of_string s)) in
  let word := string_of_list_ascii (map lower cs) in
  if String.eqb word "nan" then Some NaN
  else if String.eqb word "inf" || String.eqb word "infinity" then Some (Inf neg)
  else match floatnumber cs with
       | Some q => Some (Fin (if neg then Qred (- q) else q))
       | None => None
       end.

End FloatLiteral.


(** ** The snapshot table

    [pd.DataFrame(data["data"])] of [fetch_live_data]: a table built from
    the JSON records of the live quote source.  A cell is what a JSON
    value becomes in a pandas column; a key that is missing from one
    record is filled in as [nan]. *)

Inductive cell : Type :=
| CStr (s : string)
| CInt (z : Z)
| CFloat (x : float).

(** A frame maps a column name to the cells of that column, top row
    first (the row labels play no part in the analytics). *)
Abbreviation DataFrame := (gmap string (list cell)).

(** [s.replace('%', '')] *)
Fixpoint str_replace_percent (s : string) : string :=
  match s with
  | EmptyString => EmptyString
  | String c s' =>
      if Ascii.eqb c "%" then str_replace_percent s'
      else String c (str_replace_percent s')
  end.

(** One cell through [.astype(str).str.replace('%', '').astype(float)].
    A string loses its percent signs and is read by [float()].  A number
    is printed by [str()] and read back by [float()], which returns the
    number itself (the printed form holds no percent sign; [nan] prints
    as [nan]). *)
Definition pchange_of_cell (c : cell) : result float :=
  match c with
  | CStr s =>
      let s' := str_replace_percent s in
      match FloatLiteral.parse s' with
      | Some x => Ok x
      | None => Raise (ValueError s')
      end
  | CInt z => Ok (Fin (inject_Z z))
  | CFloat x => Ok x
  end.

(** The values of a numeric key column.  [sort_values] is only ever
    applied to the float column the method has just stored; a key column
    of strings, which pandas orders by Python's comparison of the cells,
    is outside this development and is answered like a column that
    mixes strings and numbers. *)
Definition float64_of (c : cell) : result float :=
  match c with
  | CStr _ => Raise TypeError
  | CInt z => Ok (Fin (inject_Z z))
  | CFloat x => Ok x
  end.

(** [col.take(indexer)]: the cells at the given positions, in that order. *)
Definition take_at {A} (indexer : list nat) (col : list A) : list A :=
  omap (λ i, col !! i) indexer.

Definition float_le (x y : float) : Prop := float_leb x y = true.

(** Positions paired with the values found there. *)
Definition decorates {A} (l : list A) (ps : list (nat * A)) : Prop :=
  Forall (λ p, l !! p.1 = Some p.2) ps.

(** numpy's [argsort(kind="quicksort")], the sort [sort_values] uses when
    no [kind] is given: from the values to their positions in sorted
    order. *)
Class Argsort : Type := argsort : list float → list nat.

(** What numpy promises of it.  The sort is an introsort and promises no
    more than its result: the positions of the input, each once, in an
    order that makes the values ascend.  Which of two equal values comes
    first is not part of the contract. *)
Class ArgsortContract (s : Argsort) : Prop := {
  argsort_perm : ∀ ks, argsort ks ≡ₚ seq 0 (length ks);
  argsort_sorted : ∀ ks, StronglySorted float_le (take_at (argsort ks) ks);
}.

Section snapshot.
Context `{Argsort}.

(** [pandas.core.sorting.nargsort] with [na_position="last"]: the missing
    values are set aside, the others are sorted (for a descending sort
    they are reversed before and after an ascending one), and the
    missing ones are appended. *)
Definition nargsort (items : list float) (ascending : bool) : list nat :=
  let entries := zip (seq 0 (length items)) items in
  let nan_idx := (filter (λ e, isna e.2) entries).*1 in
  let non_nan := filter (λ e, ¬ isna e.2) entries in
  let non_nan := if ascending then non_nan else reverse non_nan in
  let indexer := take_at (argsort non_nan.*2) non_nan.*1 in
  let indexer := if ascending then indexer else reverse indexer in
  indexer ++ nan_idx.

(** The rows of the key column, with their positions, in the order
    [nargsort] puts them. *)
Definition nargsort_rows (items : list float) (ascending : bool)
  : list (nat * float) :=
  let entries := zip (seq 0 (length items)) items in
  let non_nan := filter (λ e, ¬ isna e.2) entries in
  let non_nan := if ascending then non_nan else reverse non_nan in
  let ordered := take_at (argsort non_nan.*2) non_nan in
  (if ascending then ordered else reverse ordered)
    ++ filter (λ e, isna e.2) entries.

(** [df.sort_values(by, ascending=...)]: a new frame, every column
    reordered by the same indexer. *)
Definition sort_values (by_ : string) (ascending : bool) (df : DataFrame)
  : result DataFrame :=
  match df !! by_ with
  | None => Raise (KeyError by_)
  | Some col =>
      let* keys := traverse float64_of col in
      Ok (take_at (nargsort keys ascending) <$> df)
  end.

(** [df.head(n)] *)
Definition head (n : nat) (df : DataFrame) : DataFrame := take n <$> df.

(** [NSEDataAnalyzer.get_top_gainers_losers(live_df)].  The first
    component is [live_df] as the caller finds it afterwards: the
    assignment [live_df["pChange"] = ...] stores into the caller's frame.
    The handler of the source logs and re-raises, so an exception of the
    body is the outcome of the call. *)
Definition get_top_gainers_losers (live_df : DataFrame)
  : DataFrame * result (DataFrame * DataFrame) :=
  match live_df !! "pChange" with
  | None => (live_df, Raise (KeyError "pChange"))
  | Some col =>
      match traverse pchange_of_cell col with
      | Raise e => (live_df, Raise e)
      | Ok xs =>
          let live_df := <["pChange" := CFloat <$> xs]> live_df in
          (live_df,
           let* gainers := sort_values "pChange" false live_df in
           let* losers := sort_values "pChange" true live_df in
           Ok (head 5 gainers, head 5 losers))
      end
  end.

End snapshot.

(** ** Ties *)

(** Two floats the sort does not tell apart. *)
Definition tie (x y : float) : Prop := float_le x y ∧ float_le y x.

(** In [indexer], positions whose keys tie stand in ascending order:
    rows with equal keys keep their original relative order. *)
Definition keeps_ties (keys : list float) (indexer : list nat) : Prop :=
  StronglySorted
    (λ i j, ∀ x y, keys !! i = Some x → keys !! j = Some y → tie x y → (i < j)%nat)
    indexer.

(** A sort that leaves equal values in place. *)
Definition Stable (s : Argsort) : Prop := ∀ ks, keeps_ties ks (argsort ks).

(** The order that leaves no choice: by key, and by position among
    equal keys. *)
Definition stable_order (ks : list float) (i j : nat) : Prop :=
  (∀ x y, ks !! i = Some x → ks !! j = Some y → float_le x y)
  ∧ (∀ x y, ks !! i = Some x → ks !! j = Some y → tie x y → (i < j)%nat).

(** ** A stable insertion sort

    Elements are taken from left to right and each is put behind every
    element already placed that is not greater: equal elements keep the
    order they arrive in.  Only [lt] is ever asked, as in Python's
    [list.sort] and in the insertion pass of numpy's quicksort. *)

Section insertion.
Context {A : Type} (lt : A → A → bool).

Fixpoint insert_sorted (x : A) (l : list A) : list A :=
  match l with
  | [] => [x]
  | y :: l' => if lt x y then x :: l else y :: insert_sorted x l'
  end.

Definition insertion_sort (l : list A) : list A :=
  foldl (λ acc x, insert_sorted x acc) [] l.

(** [le_of a b]: [b] is not less than [a]. *)
Definition le_of (a b : A) : Prop := lt b a = false.

(** [stably before a b]: [a] may stand ahead of [b], for it is not
    greater and, if it is equal, it is [before] it. *)
Definition stably (before : relation A) (a b : A) : Prop :=
  le_of a b ∧ (lt a b = false → before a b).

End insertion.

Definition Qltb (a b : Q) : bool := negb (Qle_bool b a).

(** ** Python's [sorted(l, key=..., reverse=...)]

    The keys are computed first, one call per element (an exception of
    the key function leaves [sorted]); the sort is stable, and with
    [reverse=True] it is the stable sort of the reversed list, reversed. *)
Definition sorted {A} (key : A → result Q) (rev_ : bool) (l : list A)
  : result (list A) :=
  let* keys := traverse key l in
  let decorated := zip keys l in
  let decorated := if rev_ then reverse decorated else decorated in
  let ordered := insertion_sort (λ a b, Qltb a.1 b.1) decorated in
  Ok ((if rev_ then reverse ordered else ordered).*2).

(** ** Historical frames

    [hist_data] maps a symbol to the frame [yfinance] returned for it.
    The analytics read the number of rows and the column [Close]; the
    closes are numbers in chronological order.  The dictionary is
    iterated in insertion order, so it is kept as the list of its items. *)

Record HistFrame : Type := {
  nrows : nat;                      (* df.shape[0] *)
  columns : gmap string (list Q);
}.

Abbreviation HistData := (list (string * HistFrame)).

(** The frame of a price series: its closes as the column [Close]. *)
Definition series (closes : list Q) : HistFrame :=
  {| nrows := length closes; columns := {[ "Close" := closes ]} |}.

(** [df.empty]: no rows, or no columns. *)
Definition empty (df : HistFrame) : bool :=
  (nrows df =? 0)%nat || bool_decide (columns df = ∅).

(** [df[name]] *)
Definition getitem (df : HistFrame) (name : string) : result (list Q) :=
  match columns df !! name with
  | Some col => Ok col
  | None => Raise (KeyError name)
  end.

(** [col.iloc[-k]] for [k ≥ 1]: the [k]-th value from the end. *)
Definition iloc_neg (col : list Q) (k : nat) : result Q :=
  if bool_decide (1 ≤ k ≤ length col)%nat then
    match col !! (length col - k)%nat with
    | Some x => Ok x
    | None => Raise IndexError
    end
  else Raise IndexError.

(** [col.max()] and [col.min()].  (Of an empty column pandas answers
    [nan]; the methods read [iloc[-1]] first, which raises there.) *)
Definition series_max (col : list Q) : Q :=
  match col with
  | [] => 0
  | x :: col' => foldl Qmax x col'
  end.

Definition series_min (col : list Q) : Q :=
  match col with
  | [] => 0
  | x :: col' => foldl Qmin x col'
  end.

(** [x / y] on Python numbers: a zero divisor raises.  (On numpy's
    [float64] scalars the same division answers [inf] or [nan] and emits
    a [RuntimeWarning]; the two agree whenever the divisor is not zero.) *)
Definition truediv (x y : Q) : result Q :=
  if Qeq_bool y 0 then Raise ZeroDivisionError else Ok (x / y).

(** A ranked entry: symbol, current price, 52-week extreme. *)
Abbreviation Extreme := (string * Q * Q)%type.

(** One iteration of the loop of [get_52week_analysis] on the lists
    collected so far.  The handler of the source logs the exception and
    goes on with the next symbol. *)
Definition scan_52week (acc : list Extreme * list Extreme)
    (item : string * HistFrame) : list Extreme * list Extreme :=
  let '(below_high, above_low) := acc in
  let '(sym, df) := item in
  let body : result (list Extreme * list Extreme) :=
    if empty df then Ok acc
    else
      let* close := getitem df "Close" in
      let* current_price := iloc_neg close 1 in
      let* close := getitem df "Close" in
      let high_52w := series_max close in
      let* close := getitem df "Close" in
      let low_52w := series_min close in
      let below_high :=
        if Qle_bool current_price ((70 # 100) * high_52w)
        then below_high ++ [(sym, current_price, high_52w)] else below_high in
      let above_low :=
        if Qle_bool ((120 # 100) * low_52w) current_price
        then above_low ++ [(sym, current_price, low_52w)] else above_low in
      Ok (below_high, above_low) in
  match body with
  | Ok acc' => acc'
  | Raise _ => acc
  end.

(** The ranking key [x[1] / x[2]] of both sorts. *)
Definition ratio (x : Extreme) : result Q := truediv x.1.2 x.2.

(** [NSEDataAnalyzer.get_52week_analysis(hist_data)].  The method only
    reads [hist_data]; the first component is the dictionary the caller
    holds afterwards.  The two sorts stand behind the loop, outside its
    handler. *)
Definition get_52week_analysis (hist_data : HistData)
  : HistData * result (list Extreme * list Extreme) :=
  let '(below_high, above_low) := foldl scan_52week ([], []) hist_data in
  (hist_data,
   let* below_high := sorted ratio false below_high in
   let* above_low :=
     sorted (λ x, let* r := ratio x in Ok (- r)) false above_low in
   Ok (take 5 below_high, take 5 above_low)).

(** One iteration of the loop of [get_30day_returns]. *)
Definition scan_30day (returns : list (string * Q))
    (item : string * HistFrame) : list (string * Q) :=
  let '(sym, df) := item in
  let body : result (list (string * Q)) :=
    if (nrows df <? 30)%nat then Ok returns
    else
      let* close := getitem df "Close" in
      let* current_price := iloc_neg close 1 in
      let* close := getitem df "Close" in
      let* price_30d_ago := iloc_neg close 30 in
      let* r := truediv (current_price - price_30d_ago) price_30d_ago in
      Ok (returns ++ [(sym, r * 100)]) in
  match body with
  | Ok returns' => returns'
  | Raise _ => returns
  end.

(** [NSEDataAnalyzer.get_30day_returns(hist_data)] *)
Definition get_30day_returns (hist_data : HistData)
  : HistData * result (list (string * Q)) :=
  let returns := foldl scan_30day [] hist_data in
  (hist_data, sorted (λ x, Ok x.2) true returns).

(** What one symbol adds to the two lists of [get_52week_analysis],
    and to the list of [get_30day_returns]. *)
Definition extremes_of (item : string * HistFrame)
  : list Extreme * list Extreme :=
  scan_52week ([], []) item.

Definition return_of (item : string * HistFrame) : list (string * Q) :=
  scan_30day [] item.

(** The symbols of a ranked list. *)
Definition symbols (l : list Extreme) : list string := fst <$> (fst <$> l).

(** The lists the loop of [get_52week_analysis] hands to the two sorts. *)
Definition candidates_52week (hist_data : HistData)
  : list Extreme * list Extreme :=
  foldl scan_52week ([], []) hist_data.

(** ** Two sorts that meet numpy's contract

    Both decorate the values with their positions and sort the pairs by
    insertion.  [argsort_stable] takes them in order, as the insertion
    pass of numpy's scalar quicksort does on a short array: equal values
    keep their order.  [argsort_backward] takes them last to first:
    equal values come out in the opposite order. *)

Definition float_ltb (x y : float) : bool := negb (float_leb y x).

Definition argsort_stable (ks : list float) : list nat :=
  (insertion_sort (λ a b, float_ltb a.2 b.2) (zip (seq 0 (length ks)) ks)).*1.

Definition argsort_backward (ks : list float) : list nat :=
  (insertion_sort (λ a b, float_ltb a.2 b.2)
     (reverse (zip (seq 0 (length ks)) ks))).*1.

Definition stable_quicksort : Argsort := argsort_stable.
Definition backward_quicksort : Argsort := argsort_backward.

(** ** Sample inputs *)

(** The quotes of the specification's example: A +5.0, B -3.0, C +5.0,
    D -3.0. *)
Definition spec_quotes : DataFrame :=
  {[ "symbol" := [CStr "A"; CStr "B"; CStr "C"; CStr "D"];
     "pChange" := [CFloat (Fin 5); CFloat (Fin (-3));
                   CFloat (Fin 5); CFloat (Fin (-3))] ]}.

(** The same quotes as the live source may write them: text with a
    percent sign. *)
Definition text_quotes : DataFrame :=
  {[ "symbol" := [CStr "A"; CStr "B"; CStr "C"; CStr "D"];
     "pChange" := [CStr "5.0%"; CStr "-3.0%"; CStr "5.0%"; CStr "-3.0%"] ]}.

(** Three records of which the second has no [pChange] key: pandas
    fills the gap with [nan]. *)
Definition gappy_quotes : DataFrame :=
  {[ "symbol" := [CStr "A"; CStr "B"; CStr "C"];
     "pChange" := [CFloat (Fin 5); CFloat NaN; CStr "-3.0%"] ]}.

(** Seven quotes, more than the cut of five, and what their percent
    changes read as. *)
Definition seven_cells : list cell :=
  [CStr "1.5%"; CInt 4; CFloat (Fin (-2)); CStr "0.25";
   CStr "-7e-1"; CFloat (Fin 4); CStr "3%"].

Definition seven_changes : list float :=
  [Fin (3 # 2); Fin 4; Fin (-2); Fin (1 # 4); Fin (-7 # 10); Fin 4; Fin 3].

Definition seven_quotes : DataFrame :=
  {[ "symbol" := [CStr "A"; CStr "B"; CStr "C"; CStr "D";
                  CStr "E"; CStr "F"; CStr "G"];
     "pChange" := seven_cells ]}.

(** A map of three historical series: one that has fallen from 100 to
    50, one that has stayed at 42, and one that has risen from 10 to 13. *)
Definition three_series : HistData :=
  [("FALL"%string, series [100; 90; 80; 70; 60; 50]);
   ("FLAT"%string, series [42; 42; 42]);
   ("RISE"%string, series [10; 11; 13])].

(** A map of two series for the 30-day return: 35 closes that rise
    from 100 (the 30th from the end) to 110, and 29 closes. *)
Definition long_closes : list Q :=
  replicate 5 95 ++ [100] ++ replicate 28 105 ++ [110].

Definition two_series : HistData :=
  [("LONG"%string, series long_closes);
   ("SHORT"%string, series (replicate 29 100))].

(** ** Fetching the histories

    [yfinance] is outside the program.  [history n sym] is what the
    [n]-th request of a run, made for the symbol [sym], comes to: the
    frame [yf.Ticker(sym).history(period="1y")] returns, or nothing when
    it raises. *)
Abbreviation History := (nat → string → option HistFrame).

(** [data[k] = v] on a dictionary kept as the list of its items: a key
    that is present keeps its place and takes the new value, a new key
    goes to the end. *)
Fixpoint dict_set {V} (data : list (string * V)) (k : string) (v : V)
  : list (string * V) :=
  match data with
  | [] => [(k, v)]
  | (k', v') :: data' =>
      if decide (k' = k) then (k, v) :: data'
      else (k', v') :: dict_set data' k v
  end.

(** One iteration of the loop of [fetch_yfinance_data]; [request] is
    the number of the iteration and its symbol.  The branch of the empty
    frame and the handler only log. *)
Definition fetch_one (history : History) (data : HistData)
    (request : nat * string) : HistData :=
  let '(n, sym) := request in
  match history n sym with
  | Some hist => if empty hist then data else dict_set data sym hist
  | None => data
  end.

(** [NSEDataAnalyzer(symbols).fetch_yfinance_data()] *)
Definition fetch_yfinance_data (history : History) (self_symbols : list string)
  : HistData :=
  foldl (fetch_one history) []
    (zip (seq 0 (length self_symbols)) self_symbols).

(** What the [n]-th request leaves in the dictionary under its symbol,
    if anything. *)
Definition stored (history : History) (n : nat) (sym : string)
  : option HistFrame :=
  match history n sym with
  | Some hist => if empty hist then None else Some hist
  | None => None
  end.

(** ** Fetching the snapshot

    Around the analytics the program talks to its sources.  What can go
    wrong there are the exceptions of the analytics, the two
    [Exception]s the fetcher raises itself, and the errors of the
    libraries it calls ([requests], [json], [pandas]). *)
Inductive raised : Type :=
| Builtin (e : exn)
| Exception (message : string)
| LibraryError.

Inductive attempt (A : Type) : Type :=
| Done (a : A)
| Failed (r : raised).
Arguments Done {A} a.
Arguments Failed {A} r.

Global Instance attempt_ret : MRet attempt := λ A a, Done a.

Global Instance attempt_bind : MBind attempt := λ A B k m,
  match m with
  | Done a => k a
  | Failed r => Failed r
  end.

(** An exception of the analytics, seen from the run. *)
Definition lift {A} (m : result A) : attempt A :=
  match m with
  | Ok a => Done a
  | Raise e => Failed (Builtin e)
  end.

(** [sym + ".NS"]: Python adds text to text only. *)
Definition add_NS (sym : cell) : result string :=
  match sym with
  | CStr s => Ok (s +:+ ".NS")
  | CInt _ | CFloat _ => Raise TypeError
  end.

Section fetcher.
Context {J : Type}.

(** [pd.DataFrame(records)], of pandas: from the JSON value under
    ["data"] to a frame, or an error of the constructor. *)
Variable DataFrame_of : J → attempt DataFrame.

(** [NSEDataFetcher.fetch_live_data()].  [response] is what
    [session.get], [raise_for_status] and [response.json()] come to: the
    members of the JSON object received, or the error of one of the
    three.  The handler logs and raises the exception again. *)
Definition fetch_live_data (response : attempt (gmap string J))
  : attempt DataFrame :=
  data ← response;
  match data !! "data" with
  | None => Failed (Exception "Expected key 'data' not found in JSON response.")
  | Some records => DataFrame_of records
  end.

(** [NSEDataFetcher.get_nifty50_symbols()]: the method fetches the
    snapshot itself, with a request of its own. *)
Definition get_nifty50_symbols (response : attempt (gmap string J))
  : attempt (list string) :=
  df ← fetch_live_data response;
  match df !! "symbol" with
  | None => Failed (Exception "Expected 'symbol' column not found in data.")
  | Some col => lift (traverse add_NS col)
  end.

End fetcher.

(** ** The report

    [main] collects the lines of the report in [output_lines] and
    writes them only at its end.  What is outside the program is given
    to the model: the answers of the sources and the texts Python prints
    for numbers. *)

Record Outside (J : Type) : Type := {
  session_primed : attempt ();
    (* NSEDataFetcher(): the request that primes the session *)
  api_response : nat → attempt (gmap string J);
    (* the n-th request to the API: get, raise_for_status, json *)
  pandas_frame : J → attempt DataFrame;
    (* pd.DataFrame(data["data"]) *)
  yf_history : History;
  print_number : cell → string;     (* f"{x}" of a number *)
  print_fixed2 : float → string;    (* f"{x:.2f}" of a percent change *)
  print_price2 : Q → string;        (* f"{x:.2f}" of a price or a return *)
}.
Arguments session_primed {J} _.
Arguments api_response {J} _ _.
Arguments pandas_frame {J} _ _.
Arguments yf_history {J} _ _ _.
Arguments print_number {J} _ _.
Arguments print_fixed2 {J} _ _.
Arguments print_price2 {J} _ _.

(** The newline character. *)
Definition nl : string := String "010"%char EmptyString.

(** [len(df)]: a frame has as many rows as its columns hold cells. *)
Definition height (df : DataFrame) : nat :=
  map_fold (λ _ col n, max (length col) n) 0%nat df.

(** [df.iterrows()]: the rows from top to bottom, each with its cell of
    every column. *)
Definition iterrows (df : DataFrame) : list (gmap string cell) :=
  (λ i, omap (λ col : list cell, col !! i) df) <$> seq 0 (height df).

(** [row[name]] *)
Definition getcell (row : gmap string cell) (name : string) : result cell :=
  match row !! name with
  | Some c => Ok c
  | None => Raise (KeyError name)
  end.

(** [f"{c}"]: text is printed as it is. *)
Definition str_of (number : cell → string) (c : cell) : string :=
  match c with
  | CStr s => s
  | CInt _ | CFloat _ => number c
  end.

(** [f"{c:.2f}"]: text has no such format. *)
Definition format_2f (fixed2 : float → string) (c : cell) : result string :=
  match c with
  | CStr _ => Raise (ValueError "Unknown format code 'f' for object of type 'str'")
  | CInt z => Ok (fixed2 (Fin (inject_Z z)))
  | CFloat x => Ok (fixed2 x)
  end.

Section main.
Context `{Argsort} {J : Type} (world : Outside J).

(** The line of one row of the gainers or the losers. *)
Definition quote_line (row : gmap string cell) : result string :=
  let* symbol := getcell row "symbol" in
  let* change := getcell row "pChange" in
  let* change := format_2f (print_fixed2 world) change in
  Ok ("Symbol: " +:+ str_of (print_number world) symbol
      +:+ ", % Change: " +:+ change +:+ "%").

(** The lines of the entries of the other three sections. *)
Definition high_line (entry : Extreme) : string :=
  "Symbol: " +:+ entry.1.1
  +:+ ", Current Price: " +:+ print_price2 world entry.1.2
  +:+ ", 52-Week High: " +:+ print_price2 world entry.2.

Definition low_line (entry : Extreme) : string :=
  "Symbol: " +:+ entry.1.1
  +:+ ", Current Price: " +:+ print_price2 world entry.1.2
  +:+ ", 52-Week Low: " +:+ print_price2 world entry.2.

Definition return_line (entry : string * Q) : string :=
  "Symbol: " +:+ entry.1
  +:+ ", 30-Day Return: " +:+ print_price2 world entry.2 +:+ "%".

(** [main], from its first statement to the last [output_lines.append]:
    the lines that are then written to [data/results.txt], with the two
    frames that are then plotted, or the exception that ends the run
    before anything is written (the handler of [main] logs it).  The
    snapshot is fetched twice: the table that is ranked is the first
    answer, the symbols come from the second. *)
Definition main_output_lines : attempt (list string * (DataFrame * DataFrame)) :=
  _ ← session_primed world;
  live_df ← fetch_live_data (pandas_frame world) (api_response world 0%nat);
  nifty50_symbols ←
    get_nifty50_symbols (pandas_frame world) (api_response world 1%nat);
  ranked ← lift (get_top_gainers_losers live_df).2;
  let '(gainers, losers) := ranked in
  let output_lines := ["----- Top 5 Gainers -----"] in
  lines ← lift (traverse quote_line (iterrows gainers));
  let output_lines := output_lines ++ lines in
  let output_lines := output_lines ++ ["-------------------------" +:+ nl] in
  let output_lines := output_lines ++ ["----- Top 5 Losers -----"] in
  lines ← lift (traverse quote_line (iterrows losers));
  let output_lines := output_lines ++ lines in
  let output_lines := output_lines ++ ["-------------------------" +:+ nl] in
  let hist_data := fetch_yfinance_data (yf_history world) nifty50_symbols in
  extremes ← lift (get_52week_analysis hist_data).2;
  let '(below_high, above_low) := extremes in
  let output_lines := output_lines ++ ["----- Stocks 30% Below 52-Week High -----"] in
  let output_lines := output_lines ++ (high_line <$> below_high) in
  let output_lines := output_lines ++ ["-----------------------------------------" +:+ nl] in
  let output_lines := output_lines ++ ["----- Stocks 20% Above 52-Week Low -----"] in
  let output_lines := output_lines ++ (low_line <$> above_low) in
  let output_lines := output_lines ++ ["----------------------------------------" +:+ nl] in
  returns_30d ← lift (get_30day_returns hist_data).2;
  let output_lines := output_lines ++ ["----- Top 5 Stocks by 30-Day Return -----"] in
  let output_lines := output_lines ++ (return_line <$> take 5 returns_30d) in
  let output_lines := output_lines ++ ["-----------------------------------------" +:+ nl] in
  Done (output_lines, (gainers, losers)).

End main.

(** A frame of [n] rows: every column holds [n] cells. *)
Definition rectangular (df : DataFrame) (n : nat) : Prop :=
  map_Forall (λ _ col, length col = n) df.

(** Requests of which the first and the third, both for the symbol A,
    are answered with frames, the second, for B, with an empty frame,
    and the fourth, for C, raises. *)
Definition sample_history : History := λ n sym,
  match n with
  | 0%nat => Some (series [100; 50])
  | 1%nat => Some (series [])
  | 2%nat => Some (series [200; 100])
  | 3%nat => None
  | _ => Some (series [10; 13])
  end.

Definition sample_symbols : list string :=
  ["A.NS"; "B.NS"; "A.NS"; "C.NS"; "D.NS"]%string.

(** Two runs.  In both the API answers every request with the seven
    quotes and the texts of the numbers are left open; in the first the
    histories are those of [sample_history], in the second every
    history is two closes of zero. *)
Definition sample_world : Outside DataFrame := {|
  session_primed := Done ();
  api_response := λ _, Done {[ "data" := seven_quotes ]};
  pandas_frame := Done;
  yf_history := sample_history;
  print_number := λ _, "?"%string;
  print_fixed2 := λ _, "?.??"%string;
  print_price2 := λ _, "?.??"%string;
|}.

Definition zero_world : Outside DataFrame := {|
  session_primed := Done ();
  api_response := λ _, Done {[ "data" := seven_quotes ]};
  pandas_frame := Done;
  yf_history := λ _ _, Some (series [0; 0]);
  print_number := λ _, "?"%string;
  print_fixed2 := λ _, "?.??"%string;
  print_price2 := λ _, "?.??"%string;
|}.

(** Eight series for the ranking of [get_52week_analysis]: seven have
    fallen to 70% of their high or below, two pairs of them to the same
    fraction of it, and one has risen. *)
Definition eight_series : HistData :=
  [("A"%string, series [100; 50]);
   ("B"%string, series [200; 100]);
   ("C"%string, series [100; 40]);
   ("D"%string, series [10; 3]);
   ("E"%string, series [100; 70]);
   ("F"%string, series [100; 60]);
   ("G"%string, series [50; 20]);
   ("H"%string, series [10; 13])].

(** ** Further notions used by the properties *)

(** [x] stands at an earlier position of [l] than [y]. *)
Definition precedes {A} (l : list A) (x y : A) : Prop :=
  ∃ i j, (i < j)%nat ∧ l !! i = Some x ∧ l !! j = Some y.

(** A column in which the missing values come after all others. *)
Definition nan_last (l : list float) : Prop :=
  ∃ front back, l = front ++ back
    ∧ Forall (λ x, isna x = false) front
    ∧ Forall (λ x, isna x = true) back.

(** * Properties *)

(** ** Float literals *)

Example parse_plain : FloatLiteral.parse "5.0" = Some (Fin 5).
Proof. reflexivity. Qed.
Example parse_negative : FloatLiteral.parse "-3.25" = Some (Fin (-13 # 4)).
Proof. reflexivity. Qed.
Example parse_exponent : FloatLiteral.parse " 1_0.5e-1 " = Some (Fin (21 # 20)).
Proof. reflexivity. Qed.
Example parse_nan : FloatLiteral.parse "NaN" = Some NaN.
Proof. reflexivity. Qed.
Example parse_percent : FloatLiteral.parse "5.0%" = None.
Proof. reflexivity. Qed.
Example parse_empty : FloatLiteral.parse "" = None.
Proof. reflexivity. Qed.
Example parse_word : FloatLiteral.parse "n/a" = None.
Proof. reflexivity. Qed.

(** ** The order on floats *)

Lemma Qle_bool_false a b : Qle_bool a b = false → Qle_bool b a = true.
Proof.
  intros Hab. apply Qle_bool_iff.
  destruct (Qlt_le_dec b a) as [Hlt | Hle]; [by apply Qlt_le_weak|].
  apply Qle_bool_iff in Hle. congruence.
Qed.

Lemma float_leb_total x y : float_leb x y = false → float_leb y x = true.
Proof.
  destruct x as [a | [] |], y as [b | [] |]; simpl; try done.
  apply Qle_bool_false.
Qed.

Lemma float_leb_trans x y z :
  float_leb x y = true → float_leb y z = true → float_leb x z = true.
Proof.
  destruct x as [a | [] |], y as [b | [] |], z as [c | [] |]; simpl; try done.
  rewrite !Qle_bool_iff. apply Qle_trans.
Qed.

(** ** The insertion sort *)

Section insertion_facts.
Context {A : Type} (lt : A → A → bool).

Lemma insert_sorted_perm x l : insert_sorted lt x l ≡ₚ x :: l.
Proof.
  induction l as [|y l IH]; simpl; [done|].
  destruct (lt x y); [done|]. rewrite IH. apply Permutation_swap.
Qed.

Lemma foldl_insert_perm l acc :
  foldl (λ acc x, insert_sorted lt x acc) acc l ≡ₚ acc ++ l.
Proof.
  revert acc. induction l as [|x l IH]; intros acc; simpl.
  - by rewrite app_nil_r.
  - rewrite IH, insert_sorted_perm. simpl. apply Permutation_middle.
Qed.

Lemma insertion_sort_perm l : insertion_sort lt l ≡ₚ l.
Proof. unfold insertion_sort. by rewrite foldl_insert_perm. Qed.

Hypothesis lt_asym : ∀ a b, lt a b = true → lt b a = false.
Hypothesis le_trans : ∀ a b c, le_of lt a b → le_of lt b c → le_of lt a c.

Lemma insert_sorted_sorted x l :
  StronglySorted (le_of lt) l → StronglySorted (le_of lt) (insert_sorted lt x l).
Proof.
  induction 1 as [|y l Hl IH Hy]; simpl.
  - repeat constructor.
  - destruct (lt x y) eqn:Hxy.
    + constructor; [by constructor|].
      assert (le_of lt x y) as Hle by (by apply lt_asym).
      constructor; [done|].
      eapply Forall_impl; [exact Hy|]. intros z Hz. by eapply le_trans.
    + constructor; [done|].
      rewrite insert_sorted_perm. by constructor.
Qed.

Lemma foldl_insert_sorted l acc :
  StronglySorted (le_of lt) acc →
  StronglySorted (le_of lt) (foldl (λ acc x, insert_sorted lt x acc) acc l).
Proof.
  revert acc. induction l as [|x l IH]; intros acc Hacc; simpl; [done|].
  by apply IH, insert_sorted_sorted.
Qed.

Lemma insertion_sort_sorted l : StronglySorted (le_of lt) (insertion_sort lt l).
Proof. apply foldl_insert_sorted. constructor. Qed.

End insertion_facts.

(** ** Taking cells by position *)

Lemma take_at_seq_app {A} (pre l : list A) :
  take_at (seq (length pre) (length l)) (pre ++ l) = l.
Proof.
  revert pre. induction l as [|x l IH]; intros pre; [done|].
  specialize (IH (pre ++ [x])).
  rewrite length_app, Nat.add_1_r, <-(assoc_L (++)) in IH. simpl in IH.
  unfold take_at in *. csimpl.
  rewrite list_lookup_middle by done. csimpl. by rewrite IH.
Qed.

Lemma take_at_seq {A} (l : list A) : take_at (seq 0 (length l)) l = l.
Proof. apply (take_at_seq_app []). Qed.

Lemma take_at_perm {A} (indexer : list nat) (l : list A) :
  indexer ≡ₚ seq 0 (length l) → take_at indexer l ≡ₚ l.
Proof.
  intros Hp. unfold take_at. rewrite Hp.
  change (take_at (seq 0 (length l)) l ≡ₚ l). by rewrite take_at_seq.
Qed.

Lemma length_take_at {A} (indexer : list nat) (l : list A) :
  indexer ≡ₚ seq 0 (length l) → length (take_at indexer l) = length l.
Proof. intros Hp. by rewrite (take_at_perm _ _ Hp). Qed.

Lemma take_at_fmap {A B} (f : A → B) (indexer : list nat) (l : list A) :
  take_at indexer (f <$> l) = f <$> take_at indexer l.
Proof.
  unfold take_at. induction indexer as [|i ix IH]; [done|].
  csimpl. rewrite list_lookup_fmap. destruct (l !! i); csimpl; by rewrite IH.
Qed.

Lemma take_at_decorated {A} (l : list A) ps :
  decorates l ps → take_at ps.*1 l = ps.*2.
Proof.
  unfold take_at. induction 1 as [|[i x] ps Hp _ IH]; [done|].
  csimpl in *. by rewrite Hp, IH.
Qed.

Lemma decorates_zip_seq {A} (l : list A) :
  decorates l (zip (seq 0 (length l)) l).
Proof.
  apply Forall_forall. intros [i x] Hin.
  apply list_elem_of_lookup in Hin as [j Hj].
  apply lookup_zip_Some in Hj as [Hi Hx]. simpl.
  apply lookup_seq in Hi as [-> _]. done.
Qed.

(** ** The two sorts meet the contract *)

Lemma float_ltb_asym (a b : nat * float) :
  float_ltb a.2 b.2 = true → float_ltb b.2 a.2 = false.
Proof.
  unfold float_ltb. intros Hab. apply negb_true_iff in Hab.
  apply negb_false_iff. by apply float_leb_total.
Qed.

Lemma float_ltb_le_trans (a b c : nat * float) :
  le_of (λ a b : nat * float, float_ltb a.2 b.2) a b →
  le_of (λ a b : nat * float, float_ltb a.2 b.2) b c →
  le_of (λ a b : nat * float, float_ltb a.2 b.2) a c.
Proof.
  unfold le_of, float_ltb. rewrite !negb_false_iff. apply float_leb_trans.
Qed.

Lemma decorated_sort_laws (ks : list float) (ps : list (nat * float)) :
  ps ≡ₚ zip (seq 0 (length ks)) ks →
  let indexer := (insertion_sort (λ a b, float_ltb a.2 b.2) ps).*1 in
  indexer ≡ₚ seq 0 (length ks) ∧ StronglySorted float_le (take_at indexer ks).
Proof.
  intros Hps indexer. subst indexer. split.
  - rewrite insertion_sort_perm, Hps. by rewrite fst_zip by (by rewrite length_seq).
  - rewrite take_at_decorated.
    + eapply StronglySorted_fmap;
        [|apply insertion_sort_sorted;
          [apply float_ltb_asym | apply float_ltb_le_trans]].
      intros a b. unfold le_of, float_ltb, float_le.
      by rewrite negb_false_iff.
    + unfold decorates. rewrite insertion_sort_perm, Hps.
      apply decorates_zip_seq.
Qed.

Global Instance stable_quicksort_contract : ArgsortContract stable_quicksort.
Proof.
  split; intros ks; apply (decorated_sort_laws ks _ (reflexivity _)).
Qed.

Global Instance backward_quicksort_contract :
  ArgsortContract backward_quicksort.
Proof.
  split; intros ks; apply (decorated_sort_laws ks _ (reverse_Permutation _)).
Qed.

(** ** The indexer of [nargsort] *)

Lemma StronglySorted_reverse {A} (R : relation A) (l : list A) :
  StronglySorted R l → StronglySorted (flip R) (reverse l).
Proof.
  induction 1 as [|x l Hl IH Hx]; [constructor|].
  rewrite reverse_cons. apply StronglySorted_app_2; [|done|repeat constructor].
  intros y z Hy Hz. apply list_elem_of_singleton in Hz as ->.
  rewrite elem_of_reverse in Hy. rewrite Forall_forall in Hx.
  unfold flip. by apply Hx.
Qed.

Lemma StronglySorted_take {A} (R : relation A) (n : nat) (l : list A) :
  StronglySorted R l → StronglySorted R (take n l).
Proof.
  intros Hl. rewrite <-(take_drop n l) in Hl.
  by apply StronglySorted_app_1_l in Hl.
Qed.

Lemma traverse_float64_of (xs : list float) :
  traverse float64_of (CFloat <$> xs) = Ok xs.
Proof. induction xs as [|x xs IH]; [done|]. csimpl. by rewrite IH. Qed.

Section snapshot_facts.
Context `{ArgsortContract}.

Lemma nargsort_fst_rows items ascending :
  nargsort items ascending = (nargsort_rows items ascending).*1.
Proof.
  unfold nargsort, nargsort_rows. rewrite fmap_app, take_at_fmap.
  by destruct ascending; rewrite ?fmap_reverse.
Qed.

Lemma take_at_argsort_perm {A} (ps : list (nat * A)) (ks : list float) :
  length ks = length ps → take_at (argsort ks) ps ≡ₚ ps.
Proof. intros Hlen. apply take_at_perm. rewrite <-Hlen. apply argsort_perm. Qed.

Lemma nargsort_rows_perm items ascending :
  nargsort_rows items ascending ≡ₚ zip (seq 0 (length items)) items.
Proof.
  unfold nargsort_rows. rewrite Permutation_app_comm.
  destruct ascending; rewrite ?reverse_Permutation;
    rewrite take_at_argsort_perm by (by rewrite length_fmap);
    rewrite ?reverse_Permutation; apply filter_app_complement.
Qed.

Lemma nargsort_perm items ascending :
  nargsort items ascending ≡ₚ seq 0 (length items).
Proof.
  rewrite nargsort_fst_rows, nargsort_rows_perm.
  by rewrite fst_zip by (by rewrite length_seq).
Qed.

Lemma take_at_nargsort items ascending :
  take_at (nargsort items ascending) items = (nargsort_rows items ascending).*2.
Proof.
  rewrite nargsort_fst_rows. apply take_at_decorated.
  unfold decorates. rewrite nargsort_rows_perm. apply decorates_zip_seq.
Qed.

Lemma filter_no_nan (items : list float) :
  Forall (λ x, isna x = false) items →
  let entries := zip (seq 0 (length items)) items in
  filter (λ e, isna e.2) entries = [] ∧ filter (λ e, ¬ isna e.2) entries = entries.
Proof.
  intros Hfin entries.
  assert (Forall (λ e : nat * float, ¬ isna e.2) entries) as Hall.
  { apply Forall_forall. intros [i x] Hin. simpl.
    apply elem_of_zip_r in Hin. rewrite Forall_forall in Hfin.
    rewrite (Hfin x Hin). by intros []. }
  clear Hfin. induction Hall as [|e es He _ [IH1 IH2]]; [done|].
  rewrite filter_cons_False, filter_cons_True by tauto. by rewrite IH1, IH2.
Qed.

(** Without missing values the ascending indexer makes the keys ascend
    and the descending one makes them descend. *)
Lemma nargsort_ascending items :
  Forall (λ x, isna x = false) items →
  StronglySorted float_le (take_at (nargsort items true) items).
Proof.
  intros Hfin. rewrite take_at_nargsort. unfold nargsort_rows.
  destruct (filter_no_nan items Hfin) as [-> ->].
  rewrite app_nil_r, <-take_at_fmap. apply argsort_sorted.
Qed.

Lemma nargsort_descending items :
  Forall (λ x, isna x = false) items →
  StronglySorted (flip float_le) (take_at (nargsort items false) items).
Proof.
  intros Hfin. rewrite take_at_nargsort. unfold nargsort_rows.
  destruct (filter_no_nan items Hfin) as [-> ->].
  rewrite app_nil_r, fmap_reverse, <-take_at_fmap.
  apply StronglySorted_reverse, argsort_sorted.
Qed.

End snapshot_facts.

(** ** [get_top_gainers_losers] *)

Lemma length_traverse {A B} (f : A → result B) (xs : list A) (ys : list B) :
  traverse f xs = Ok ys → length ys = length xs.
Proof.
  revert ys. induction xs as [|x xs IH]; intros ys; simpl.
  - by intros [= <-].
  - destruct (f x); [|done]. simpl.
    destruct (traverse f xs); [|done]. simpl.
    intros [= <-]. simpl. f_equal. by apply IH.
Qed.

(** The outcome on a table whose percent-change column can be read. *)
Lemma get_top_gainers_losers_ok `{Argsort} (live_df : DataFrame) col xs :
  live_df !! "pChange" = Some col →
  traverse pchange_of_cell col = Ok xs →
  let stored := <["pChange" := CFloat <$> xs]> live_df in
  get_top_gainers_losers live_df =
    (stored,
     Ok (head 5 (take_at (nargsort xs false) <$> stored),
         head 5 (take_at (nargsort xs true) <$> stored))).
Proof.
  intros Hcol Hxs stored. unfold get_top_gainers_losers, sort_values.
  rewrite Hcol, Hxs. fold stored. unfold stored at 2 4.
  rewrite lookup_insert_eq, traverse_float64_of. done.
Qed.

Section top_gainers_losers.
Context `{ArgsortContract}.

Lemma head_sorted_column (stored : DataFrame) xs ascending :
  stored !! "pChange" = Some (CFloat <$> xs) →
  head 5 (take_at (nargsort xs ascending) <$> stored) !! "pChange"
  = Some (CFloat <$> take 5 (take_at (nargsort xs ascending) xs)).
Proof.
  intros Hst. unfold head. rewrite !lookup_fmap, Hst. simpl.
  by rewrite take_at_fmap, fmap_take.
Qed.

Lemma head_other_column (stored : DataFrame) xs ascending name (c : list cell) :
  stored !! name = Some c → length c = length xs →
  ∃ c', head 5 (take_at (nargsort xs ascending) <$> stored) !! name = Some c'
        ∧ length c' = min 5 (length xs)
        ∧ (length xs ≤ 5 → c' ≡ₚ c).
Proof.
  intros Hc Hlen. eexists. unfold head. rewrite !lookup_fmap, Hc. simpl.
  split; [done|].
  assert (nargsort xs ascending ≡ₚ seq 0 (length c)) as Hp
    by (rewrite Hlen; apply nargsort_perm).
  split.
  - by rewrite length_take, (length_take_at _ _ Hp), Hlen.
  - intros Hle. rewrite take_ge by (rewrite (length_take_at _ _ Hp); lia).
    by apply take_at_perm.
Qed.

(** C5. For every table whose percent-change cells can all be read and
    hold no [nan], [get_top_gainers_losers] returns (it does not raise)
    gainers and losers of [min 5 n] rows each, [n] the number of quotes:
    the percent changes of the gainers descend, those of the losers
    ascend, every other full column is cut to the same [min 5 n] rows,
    and with at most five quotes both outputs hold all of them. *)
Theorem top_gainers_losers_sorted (live_df : DataFrame) col xs :
  live_df !! "pChange" = Some col →
  traverse pchange_of_cell col = Ok xs →
  Forall (λ x, isna x = false) xs →
  ∃ gainers losers gs ls,
    (get_top_gainers_losers live_df).2 = Ok (gainers, losers)
    ∧ gainers !! "pChange" = Some (CFloat <$> gs)
    ∧ losers !! "pChange" = Some (CFloat <$> ls)
    ∧ length gs = min 5 (length col) ∧ length ls = min 5 (length col)
    ∧ StronglySorted (flip float_le) gs ∧ StronglySorted float_le ls
    ∧ (length col ≤ 5 → gs ≡ₚ xs ∧ ls ≡ₚ xs)
    ∧ (∀ name c, name ≠ "pChange" → live_df !! name = Some c →
         length c = length col →
         ∃ gc lc, gainers !! name = Some gc ∧ losers !! name = Some lc
                  ∧ length gc = min 5 (length col)
                  ∧ length lc = min 5 (length col)
                  ∧ (length col ≤ 5 → gc ≡ₚ c ∧ lc ≡ₚ c)).
Proof.
  intros Hcol Hxs Hfin.
  pose proof (length_traverse _ _ _ Hxs) as Hlen.
  rewrite (get_top_gainers_losers_ok _ _ _ Hcol Hxs). simpl.
  set (stored := <["pChange" := CFloat <$> xs]> live_df).
  assert (stored !! "pChange" = Some (CFloat <$> xs)) as Hst
    by apply lookup_insert_eq.
  eexists _, _, _, _. split; [done|].
  split; [by apply head_sorted_column|].
  split; [by apply head_sorted_column|].
  rewrite !length_take, !length_take_at, Hlen by apply nargsort_perm.
  do 2 (split; [done|]).
  split; [by apply StronglySorted_take, nargsort_descending|].
  split; [by apply StronglySorted_take, nargsort_ascending|].
  split.
  - intros Hle.
    rewrite !take_ge by (rewrite length_take_at by apply nargsort_perm; lia).
    split; apply take_at_perm, nargsort_perm.
  - intros name c Hne Hc Hc_len.
    assert (stored !! name = Some c) as Hsc
      by (unfold stored; by rewrite lookup_insert_ne).
    rewrite <-Hlen in Hc_len.
    destruct (head_other_column stored xs false name c Hsc Hc_len)
      as (gc & Hgc & Hgl & Hgp).
    destruct (head_other_column stored xs true name c Hsc Hc_len)
      as (lc & Hlc & Hll & Hlp).
    exists gc, lc. rewrite <-Hlen. naive_solver.
Qed.

End top_gainers_losers.

(** [traverse] raises exactly when some element does. *)
Lemma traverse_raises {A B} (f : A → result B) (xs : list A) :
  (∃ x, x ∈ xs ∧ is_ok (f x) = false) → ∃ e, traverse f xs = Raise e.
Proof.
  induction xs as [|x xs IH]; intros (y & Hin & Hy).
  - by apply elem_of_nil in Hin.
  - simpl. destruct (f x) as [b|e] eqn:Hfx; [|by eexists].
    apply elem_of_cons in Hin as [->|Hin]; [by rewrite Hfx in Hy|].
    destruct IH as [e ->]; [by eauto|]. by eexists.
Qed.

Lemma traverse_returns {A B} (f : A → result B) (xs : list A) :
  Forall (λ x, is_ok (f x) = true) xs → ∃ ys, traverse f xs = Ok ys.
Proof.
  induction 1 as [|x xs Hx _ [ys IH]]; [by eexists|].
  simpl. destruct (f x); [|done]. rewrite IH. by eexists.
Qed.

(** The only cell [pchange_of_cell] rejects: text that, without its
    percent signs, is no float literal. *)
Lemma pchange_of_cell_raises (c : cell) :
  is_ok (pchange_of_cell c) = false ↔
  ∃ s, c = CStr s ∧ FloatLiteral.parse (str_replace_percent s) = None.
Proof.
  destruct c as [s|z|x]; simpl.
  - destruct (FloatLiteral.parse (str_replace_percent s)) eqn:Hp; simpl.
    + split; [done|]. intros (s' & [= <-] & Hs'). congruence.
    + split; [|done]. intros _. by exists s.
  - split; [done|]. by intros (s & ? & _).
  - split; [done|]. by intros (s & ? & _).
Qed.

(** C2 (as amended). [get_top_gainers_losers] stores into the caller's
    table: after a call that returns, the column [pChange] holds the
    floats read from it, and every other column is as before; after a
    call that raises, the table is as before.  [get_52week_analysis] and
    [get_30day_returns] leave the map of historical series as it was. *)
Theorem analytics_frame `{Argsort} (live_df : DataFrame) (hist_data : HistData) :
  (get_top_gainers_losers live_df).1 =
    match live_df !! "pChange" with
    | Some col =>
        match traverse pchange_of_cell col with
        | Ok xs => <["pChange" := CFloat <$> xs]> live_df
        | Raise _ => live_df
        end
    | None => live_df
    end
  ∧ (∀ name, name ≠ "pChange" →
       (get_top_gainers_losers live_df).1 !! name = live_df !! name)
  ∧ (is_ok (get_top_gainers_losers live_df).2 = false →
       (get_top_gainers_losers live_df).1 = live_df)
  ∧ (get_52week_analysis hist_data).1 = hist_data
  ∧ (get_30day_returns hist_data).1 = hist_data.
Proof.
  split; [|split; [|split; [|split]]].
  - unfold get_top_gainers_losers.
    destruct (live_df !! "pChange") as [col|]; [|done].
    by destruct (traverse pchange_of_cell col).
  - intros name Hne. unfold get_top_gainers_losers.
    destruct (live_df !! "pChange") as [col|]; [|done].
    destruct (traverse pchange_of_cell col); [|done].
    simpl. by rewrite lookup_insert_ne.
  - destruct (live_df !! "pChange") as [col|] eqn:Hcol.
    + destruct (traverse pchange_of_cell col) as [xs|e] eqn:Hxs.
      * by rewrite (get_top_gainers_losers_ok _ _ _ Hcol Hxs).
      * unfold get_top_gainers_losers. by rewrite Hcol, Hxs.
    + unfold get_top_gainers_losers. by rewrite Hcol.
  - unfold get_52week_analysis.
    by destruct (foldl scan_52week ([], []) hist_data).
  - done.
Qed.

(** The call on [text_quotes] replaces the text of the column by floats. *)
Lemma top_gainers_losers_overwrites :
  text_quotes !! "pChange"
  = Some [CStr "5.0%"; CStr "-3.0%"; CStr "5.0%"; CStr "-3.0%"]
  ∧ (@get_top_gainers_losers stable_quicksort text_quotes).1 !! "pChange"
    = Some [CFloat (Fin 5); CFloat (Fin (-3)); CFloat (Fin 5); CFloat (Fin (-3))].
Proof. split; vm_compute; reflexivity. Qed.

(** C8 (as amended). A table without the column [pChange], or with a
    cell of text in it that is no float literal once its percent signs
    are removed, makes [get_top_gainers_losers] raise: no gainers and
    losers are produced and the table is left as it was.  Every other
    table is ranked; a quote whose field is missing ([nan]) is among
    them. *)
Theorem top_gainers_losers_rejects `{Argsort} (live_df : DataFrame) :
  (live_df !! "pChange" = None →
     get_top_gainers_losers live_df = (live_df, Raise (KeyError "pChange")))
  ∧ (∀ col, live_df !! "pChange" = Some col →
       (∃ s, CStr s ∈ col
             ∧ FloatLiteral.parse (str_replace_percent s) = None) →
       ∃ e, get_top_gainers_losers live_df = (live_df, Raise e))
  ∧ (∀ col, live_df !! "pChange" = Some col →
       Forall (λ c, ∀ s, c = CStr s →
                 is_Some (FloatLiteral.parse (str_replace_percent s))) col →
       is_ok (get_top_gainers_losers live_df).2 = true).
Proof.
  split; [|split].
  - intros Hcol. unfold get_top_gainers_losers. by rewrite Hcol.
  - intros col Hcol (s & Hin & Hs).
    destruct (traverse_raises pchange_of_cell col) as [e He].
    { exists (CStr s). split; [done|]. apply pchange_of_cell_raises. eauto. }
    exists e. unfold get_top_gainers_losers. by rewrite Hcol, He.
  - intros col Hcol Hall.
    destruct (traverse_returns pchange_of_cell col) as [xs Hxs].
    { eapply Forall_impl; [exact Hall|]. intros c Hc.
      destruct (is_ok (pchange_of_cell c)) eqn:Hok; [done|].
      apply pchange_of_cell_raises in Hok as (s & -> & Hs).
      destruct (Hc s eq_refl) as [x Hx]. congruence. }
    by rewrite (get_top_gainers_losers_ok _ _ _ Hcol Hxs).
Qed.

(** A record without [pChange] does not make the call raise: quote B of
    [gappy_quotes] is ranked, behind the others, with [nan]. *)
Lemma top_gainers_losers_ranks_missing :
  ∃ gainers losers,
    (@get_top_gainers_losers stable_quicksort gappy_quotes).2
    = Ok (gainers, losers)
    ∧ gainers !! "symbol" = Some [CStr "A"; CStr "C"; CStr "B"]
    ∧ gainers !! "pChange"
      = Some [CFloat (Fin 5); CFloat (Fin (-3)); CFloat NaN]
    ∧ losers !! "symbol" = Some [CStr "C"; CStr "A"; CStr "B"].
Proof. eexists _, _. split; [reflexivity|]. by vm_compute. Qed.

Section insertion_stable.
Context {A : Type} (lt : A → A → bool) (before : relation A).
Hypothesis lt_asym : ∀ a b, lt a b = true → lt b a = false.
Hypothesis le_trans : ∀ a b c, le_of lt a b → le_of lt b c → le_of lt a c.

Lemma insert_sorted_stably x l :
  Forall (λ a, before a x) l →
  StronglySorted (stably lt before) l → StronglySorted (stably lt before) (insert_sorted lt x l).
Proof.
  intros Hbefore Hl. induction Hl as [|y l Hl IH Hy]; simpl.
  - repeat constructor.
  - apply Forall_cons in Hbefore as [Hyx Hbefore].
    destruct (lt x y) eqn:Hxy.
    + constructor; [by constructor|].
      assert (∀ z, le_of lt y z → stably lt before x z) as Hlater.
      { intros z Hyz. assert (lt x z = true) as Hxz.
        { destruct (lt x z) eqn:Hxz; [done|].
          assert (le_of lt y x) as Hle by (by eapply le_trans).
          unfold le_of in Hle. congruence. }
        split; [by apply lt_asym | congruence]. }
      constructor.
      * apply Hlater. unfold le_of.
        destruct (lt y y) eqn:Hyy; [|done]. by rewrite (lt_asym _ _ Hyy) in Hyy.
      * eapply Forall_impl; [exact Hy|]. intros z [Hz _]. by apply Hlater.
    + constructor; [by apply IH|].
      rewrite insert_sorted_perm. constructor; [|done]. by split.
Qed.

Lemma foldl_insert_stably l acc :
  (∀ a b, a ∈ acc → b ∈ l → before a b) →
  StronglySorted before l → StronglySorted (stably lt before) acc →
  StronglySorted (stably lt before) (foldl (λ acc x, insert_sorted lt x acc) acc l).
Proof.
  revert acc. induction l as [|x l IH]; intros acc Hcross Hl Hacc; [done|].
  apply StronglySorted_cons in Hl as [Hx Hl]. rewrite Forall_forall in Hx.
  simpl. apply IH; [|done|].
  - intros a b Ha Hb. rewrite insert_sorted_perm in Ha.
    apply elem_of_cons in Ha as [->|Ha]; [by apply Hx|].
    apply Hcross; [done|by right].
  - apply insert_sorted_stably; [|done].
    apply Forall_forall. intros a Ha. apply Hcross; [done|left].
Qed.

Lemma insertion_sort_stably l :
  StronglySorted before l → StronglySorted (stably lt before) (insertion_sort lt l).
Proof.
  intros Hl. apply foldl_insert_stably; [|done|constructor].
  intros a b Ha. by apply elem_of_nil in Ha.
Qed.

End insertion_stable.

(** ** Sortedness, positions and sublists *)

Lemma StronglySorted_weaken {A} (Q : A → Prop) (R1 R2 : relation A) l :
  Forall Q l → (∀ x y, Q x → Q y → R1 x y → R2 x y) →
  StronglySorted R1 l → StronglySorted R2 l.
Proof.
  intros HQ Himpl Hl. induction Hl as [|x l Hl IH Hx]; [constructor|].
  apply Forall_cons in HQ as [Hqx HQ]. constructor; [by apply IH|].
  rewrite Forall_forall in *. intros y Hy. apply Himpl; auto.
Qed.

Lemma StronglySorted_lookup {A} (R : relation A) l (i j : nat) x y :
  StronglySorted R l → (i < j)%nat → l !! i = Some x → l !! j = Some y → R x y.
Proof.
  intros Hl. revert i j. induction Hl as [|z l Hl IH Hz]; intros i j Hij Hi Hj.
  - by rewrite lookup_nil in Hi.
  - destruct j as [|j]; [lia|]. simpl in Hj. destruct i as [|i].
    + simpl in Hi. injection Hi as ->. rewrite Forall_forall in Hz.
      apply Hz. by eapply list_elem_of_lookup_2.
    + simpl in Hi. apply (IH i j); [lia|done..].
Qed.

Lemma StronglySorted_filter {A} (R : relation A) (P : A → Prop)
    `{∀ x, Decision (P x)} l :
  StronglySorted R l → StronglySorted R (filter P l).
Proof.
  induction 1 as [|x l Hl IH Hx]; [constructor|].
  rewrite filter_cons. destruct (decide (P x)); [|done].
  constructor; [done|]. rewrite Forall_forall in *.
  intros y Hy. apply list_elem_of_filter in Hy as [_ Hy]. by apply Hx.
Qed.

Lemma StronglySorted_take_at {A} (Rpos : relation nat) (T : relation A)
    (indexer : list nat) (l : list A) :
  (∀ i j x y, Rpos i j → l !! i = Some x → l !! j = Some y → T x y) →
  StronglySorted Rpos indexer → StronglySorted T (take_at indexer l).
Proof.
  intros Himpl. unfold take_at.
  induction 1 as [|i ix Hix IH Hi]; [constructor|]. csimpl.
  destruct (l !! i) as [x|] eqn:Hx; csimpl; [|done].
  constructor; [done|]. apply Forall_forall. intros y Hy.
  apply list_elem_of_omap in Hy as (j & Hj & Hy).
  rewrite Forall_forall in Hi. by eapply Himpl; [apply Hi| |].
Qed.

Lemma zip_seq_sorted {A} (j : nat) (l : list A) :
  StronglySorted (λ a b : nat * A, (a.1 < b.1)%nat) (zip (seq j (length l)) l).
Proof.
  revert j. induction l as [|x l IH]; intros j; [constructor|].
  simpl. constructor; [apply IH|].
  apply Forall_forall. intros [i y] Hin. simpl.
  apply elem_of_zip_l, elem_of_seq in Hin. lia.
Qed.

(** ** Stable sorts keep ties in place *)

Lemma tie_nan x y : tie x y → isna x = isna y.
Proof. destruct x as [a | [] |], y as [b | [] |]; by intros [? ?]. Qed.

Lemma keeps_ties_decorated (items : list float) (rows : list (nat * float)) :
  decorates items rows →
  StronglySorted (λ a b, tie a.2 b.2 → (a.1 < b.1)%nat) rows →
  keeps_ties items rows.*1.
Proof.
  intros Hdec Hrows. unfold keeps_ties.
  induction Hrows as [|a rows Hrows IH Ha]; [constructor|].
  apply Forall_cons in Hdec as [Hda Hdec]. csimpl.
  constructor; [by apply IH|].
  rewrite Forall_fmap. rewrite Forall_forall in *. intros b Hb x y Hx Hy Hxy.
  simpl in *. apply Ha; [done|].
  specialize (Hdec b Hb). simpl in Hdec. congruence.
Qed.

Lemma stable_quicksort_Stable : Stable stable_quicksort.
Proof.
  intros ks. simpl. unfold argsort_stable.
  apply keeps_ties_decorated.
  - unfold decorates. rewrite insertion_sort_perm. apply decorates_zip_seq.
  - eapply (StronglySorted_weaken (λ _, True)); [by apply Forall_true| |].
    2:{ apply (insertion_sort_stably _ (λ a b, (a.1 < b.1)%nat));
          [apply float_ltb_asym | apply float_ltb_le_trans | apply zip_seq_sorted]. }
    intros a b _ _ [_ Hab] [_ Hba]. apply Hab.
    unfold float_ltb. by rewrite Hba.
Qed.

Section stable_nargsort.
Context `{ArgsortContract} (stable : Stable s).

Lemma take_at_argsort_ties (before : relation (nat * float)) ps :
  StronglySorted before ps →
  StronglySorted (λ a b, tie a.2 b.2 → before a b)
    (take_at (argsort ps.*2) ps).
Proof.
  intros Hps. eapply StronglySorted_take_at; [|apply (stable ps.*2)].
  intros i j a b Hij Ha Hb Hab. simpl in Hij.
  eapply StronglySorted_lookup; [exact Hps| |done..].
  eapply Hij; [| |exact Hab]; by rewrite list_lookup_fmap, ?Ha, ?Hb.
Qed.

Lemma nargsort_rows_ties items ascending :
  StronglySorted (λ a b, tie a.2 b.2 → (a.1 < b.1)%nat)
    (nargsort_rows items ascending).
Proof.
  unfold nargsort_rows.
  set (entries := zip (seq 0 (length items)) items).
  pose proof (zip_seq_sorted 0 items) as Hent. fold entries in Hent.
  apply StronglySorted_app_2.
  - intros a b Ha Hb Hab. apply tie_nan in Hab.
    apply list_elem_of_filter in Hb as [Hb _].
    assert (a ∈ filter (λ e : nat * float, ¬ isna e.2) entries) as Ha'.
    { destruct ascending; [|rewrite elem_of_reverse in Ha];
        rewrite take_at_argsort_perm in Ha by (by rewrite length_fmap);
        [done|by rewrite elem_of_reverse in Ha]. }
    apply list_elem_of_filter in Ha' as [Ha' _].
    rewrite Hab in Ha'. done.
  - destruct ascending.
    + by apply take_at_argsort_ties, StronglySorted_filter.
    + eapply (StronglySorted_weaken (λ _, True)); [by apply Forall_true| |].
      2:{ apply StronglySorted_reverse, take_at_argsort_ties.
          by apply StronglySorted_reverse, StronglySorted_filter. }
      intros a b _ _ Hba [Hab1 Hab2]. by apply Hba.
  - eapply (StronglySorted_weaken (λ _, True));
      [by apply Forall_true| |by apply StronglySorted_filter].
    by intros a b _ _ Hab _.
Qed.

Lemma nargsort_keeps_ties items ascending :
  keeps_ties items (nargsort items ascending).
Proof.
  rewrite nargsort_fst_rows. apply keeps_ties_decorated.
  - unfold decorates. rewrite nargsort_rows_perm. apply decorates_zip_seq.
  - apply nargsort_rows_ties.
Qed.

End stable_nargsort.

(** ** All stable sorts agree *)

Lemma StronglySorted_and {A} (R1 R2 : relation A) l :
  StronglySorted R1 l → StronglySorted R2 l →
  StronglySorted (λ x y, R1 x y ∧ R2 x y) l.
Proof.
  induction 1 as [|x l Hl IH Hx]; intros H2; [constructor|].
  apply StronglySorted_cons in H2 as [Hx2 H2].
  constructor; [by apply IH|]. rewrite Forall_forall in *. naive_solver.
Qed.

Lemma StronglySorted_positions {A} (R : relation A) (indexer : list nat) l :
  StronglySorted R (take_at indexer l) →
  StronglySorted
    (λ i j, ∀ x y, l !! i = Some x → l !! j = Some y → R x y) indexer.
Proof.
  unfold take_at. induction indexer as [|i ix IH]; [constructor|]. csimpl.
  destruct (l !! i) as [x|] eqn:Hx; csimpl; intros Hs.
  - apply StronglySorted_cons in Hs as [Hxs Hs].
    constructor; [by apply IH|]. apply Forall_forall.
    intros j Hj x' y Hx' Hy. rewrite Hx in Hx'. injection Hx' as <-.
    rewrite Forall_forall in Hxs. apply Hxs, list_elem_of_omap. eauto.
  - constructor; [by apply IH|]. apply Forall_forall.
    intros j _ x y Hx'. congruence.
Qed.

Lemma argsort_stable_order (s : Argsort) `{!ArgsortContract s} ks :
  Stable s → StronglySorted (stable_order ks) (argsort ks).
Proof.
  intros Hs. apply StronglySorted_and; [|apply Hs].
  apply StronglySorted_positions, argsort_sorted.
Qed.

Lemma stable_unique (s : Argsort) `{!ArgsortContract s} ks :
  Stable s → @argsort s ks = argsort_stable ks.
Proof.
  intros Hs.
  apply (StronglySorted_unique_strong (stable_order ks)).
  - intros i j Hi Hj [Hij1 Hij2] [Hji1 Hji2]. exfalso.
    rewrite argsort_perm in Hi.
    rewrite (argsort_perm (s:=stable_quicksort)) in Hj.
    apply elem_of_seq in Hi as [_ Hi], Hj as [_ Hj]. simpl in Hi, Hj.
    destruct (lookup_lt_is_Some_2 ks i Hi) as [x Hx].
    destruct (lookup_lt_is_Some_2 ks j Hj) as [y Hy].
    assert (tie x y) as Hxy by (split; eauto).
    assert (tie y x) as Hyx by (split; eauto).
    specialize (Hij2 x y Hx Hy Hxy). specialize (Hji2 y x Hy Hx Hyx). lia.
  - by apply argsort_stable_order.
  - apply (argsort_stable_order stable_quicksort), stable_quicksort_Stable.
  - by rewrite argsort_perm, (argsort_perm (s:=stable_quicksort)).
Qed.

Lemma nargsort_stable (s : Argsort) `{!ArgsortContract s} items ascending :
  Stable s →
  @nargsort s items ascending = @nargsort stable_quicksort items ascending.
Proof.
  intros Hs. unfold nargsort. cbv zeta. by rewrite (stable_unique s _ Hs).
Qed.

Lemma sort_values_stable (s : Argsort) `{!ArgsortContract s}
    key ascending (df : DataFrame) :
  Stable s →
  @sort_values s key ascending df = @sort_values stable_quicksort key ascending df.
Proof.
  intros Hs. unfold sort_values. destruct (df !! key) as [col|]; [|done].
  destruct (traverse float64_of col) as [keys|]; [|done]. simpl.
  by rewrite (nargsort_stable s _ _ Hs).
Qed.

Lemma get_top_gainers_losers_stable (s : Argsort) `{!ArgsortContract s}
    (live_df : DataFrame) :
  Stable s →
  @get_top_gainers_losers s live_df
  = @get_top_gainers_losers stable_quicksort live_df.
Proof.
  intros Hs. unfold get_top_gainers_losers.
  destruct (live_df !! "pChange") as [col|]; [|done].
  destruct (traverse pchange_of_cell col) as [xs|]; [|done].
  by rewrite !(sort_values_stable s _ _ _ Hs).
Qed.




(** ** Python's [sorted] *)

Lemma Qltb_asym {A} (a b : Q * A) : Qltb a.1 b.1 = true → Qltb b.1 a.1 = false.
Proof.
  unfold Qltb. rewrite negb_true_iff, negb_false_iff. apply Qle_bool_false.
Qed.

Lemma Qltb_le_trans {A} (a b c : Q * A) :
  le_of (λ a b : Q * A, Qltb a.1 b.1) a b →
  le_of (λ a b : Q * A, Qltb a.1 b.1) b c →
  le_of (λ a b : Q * A, Qltb a.1 b.1) a c.
Proof.
  unfold le_of, Qltb. rewrite !negb_false_iff, !Qle_bool_iff. apply Qle_trans.
Qed.

Lemma traverse_pure {A B} (f : A → B) (xs : list A) :
  traverse (λ x, Ok (f x)) xs = Ok (f <$> xs).
Proof. induction xs as [|x xs IH]; [done|]. simpl. by rewrite IH. Qed.

(** [sorted] raises only if a key does, and returns a rearrangement. *)
Lemma sorted_returns {A} (key : A → result Q) rev_ (l : list A) :
  Forall (λ x, is_ok (key x) = true) l → ∃ l', sorted key rev_ l = Ok l'.
Proof.
  intros Hl. unfold sorted.
  destruct (traverse_returns key l Hl) as [keys ->]. by eexists.
Qed.

Lemma sorted_perm {A} (key : A → result Q) rev_ (l l' : list A) :
  sorted key rev_ l = Ok l' → l' ≡ₚ l.
Proof.
  unfold sorted. destruct (traverse key l) as [keys|] eqn:Hkeys; [|done].
  simpl. intros [= <-]. apply length_traverse in Hkeys.
  destruct rev_; rewrite ?reverse_Permutation, insertion_sort_perm,
    ?reverse_Permutation; by rewrite snd_zip by lia.
Qed.

(** With a key that cannot raise and [reverse=True] the keys descend. *)
Lemma sorted_descending {A} (f : A → Q) (l l' : list A) :
  sorted (λ x, Ok (f x)) true l = Ok l' →
  StronglySorted (λ a b, f b <= f a) l'.
Proof.
  unfold sorted. rewrite traverse_pure. simpl. intros [= <-].
  set (ordered := insertion_sort _ _).
  assert (Forall (λ p : Q * A, p.1 = f p.2) ordered) as Hdec.
  { unfold ordered. rewrite insertion_sort_perm, reverse_Permutation.
    apply Forall_forall. intros [k x] Hin.
    apply list_elem_of_lookup in Hin as [i Hi].
    apply lookup_zip_Some in Hi as [Hk Hx]. simpl.
    rewrite list_lookup_fmap, Hx in Hk. by injection Hk. }
  apply (StronglySorted_fmap _ (λ a b : Q * A, f b.2 <= f a.2)); [done|].
  apply (StronglySorted_weaken (λ p : Q * A, p.1 = f p.2)
           (flip (le_of (λ a b : Q * A, Qltb a.1 b.1)))).
  - by rewrite reverse_Permutation.
  - intros a b Ha Hb. unfold flip, le_of, Qltb.
    rewrite negb_false_iff, Qle_bool_iff. by rewrite Ha, Hb.
  - apply StronglySorted_reverse, insertion_sort_sorted;
      [apply Qltb_asym | apply Qltb_le_trans].
Qed.

(** ** Reading a series *)

Lemma iloc_neg_Ok (col : list Q) (k : nat) x :
  iloc_neg col k = Ok x ↔
  (1 ≤ k ≤ length col)%nat ∧ col !! (length col - k)%nat = Some x.
Proof.
  unfold iloc_neg. case_bool_decide as Hk.
  - destruct (col !! (length col - k)%nat) as [y|]; split.
    + by intros [= ->].
    + by intros [_ [= ->]].
    + done.
    + by intros [_ ?].
  - split; [done|]. by intros [? _].
Qed.

Lemma iloc_neg_last (col : list Q) x : iloc_neg col 1 = Ok x ↔ last col = Some x.
Proof.
  rewrite iloc_neg_Ok, last_lookup.
  replace (length col - 1)%nat with (pred (length col)) by lia.
  split; [by intros [_ ?]|]. intros Hx. split; [|done].
  apply lookup_lt_Some in Hx. lia.
Qed.

(** ** The loop of [get_52week_analysis] *)

Lemma scan_52week_app acc item :
  scan_52week acc item
  = (acc.1 ++ (extremes_of item).1, acc.2 ++ (extremes_of item).2).
Proof.
  destruct acc as [below above], item as [sym df].
  unfold extremes_of, scan_52week, getitem. simpl.
  destruct (empty df); simpl; [by rewrite !app_nil_r|].
  destruct (columns df !! "Close") as [close|]; simpl; [|by rewrite !app_nil_r].
  destruct (iloc_neg close 1) as [current_price|]; simpl;
    [|by rewrite !app_nil_r].
  by repeat case_match; rewrite ?app_nil_r.
Qed.

Lemma foldl_scan_52week hist acc :
  foldl scan_52week acc hist
  = (acc.1 ++ (hist ≫= λ item, (extremes_of item).1),
     acc.2 ++ (hist ≫= λ item, (extremes_of item).2)).
Proof.
  revert acc. induction hist as [|item hist IH]; intros acc.
  - destruct acc. simpl. by rewrite !app_nil_r.
  - simpl. rewrite IH, scan_52week_app. simpl. by rewrite <-!(assoc_L (++)).
Qed.

Lemma candidates_52week_bind hist :
  candidates_52week hist
  = (hist ≫= λ item, (extremes_of item).1, hist ≫= λ item, (extremes_of item).2).
Proof. unfold candidates_52week. by rewrite foldl_scan_52week. Qed.

(** What a symbol with a readable, non-empty series adds. *)
Lemma extremes_of_series sym df closes cur :
  empty df = false → columns df !! "Close" = Some closes →
  last closes = Some cur →
  extremes_of (sym, df)
  = (if Qle_bool cur ((70 # 100) * series_max closes)
     then [(sym, cur, series_max closes)] else [],
     if Qle_bool ((120 # 100) * series_min closes) cur
     then [(sym, cur, series_min closes)] else []).
Proof.
  intros Hne Hclose Hlast. apply iloc_neg_last in Hlast.
  unfold extremes_of, scan_52week, getitem. rewrite Hne, Hclose. simpl.
  rewrite Hlast. simpl. by repeat case_match.
Qed.

(** An empty list has no entry. *)
Ltac no_entry :=
  let Hin := fresh "Hin" in intros Hin; by apply elem_of_nil in Hin.

(** Where an entry of either list comes from. *)
Lemma extremes_of_below item (e : Extreme) :
  e ∈ (extremes_of item).1 →
  ∃ df closes, item = (e.1.1, df) ∧ empty df = false
    ∧ columns df !! "Close" = Some closes ∧ last closes = Some e.1.2
    ∧ e.2 = series_max closes
    ∧ Qle_bool e.1.2 ((70 # 100) * e.2) = true.
Proof.
  destruct item as [sym df]. unfold extremes_of, scan_52week, getitem.
  destruct (empty df) eqn:Hne; simpl; [no_entry|].
  destruct (columns df !! "Close") as [closes|] eqn:Hclose; simpl;
    [|no_entry].
  destruct (iloc_neg closes 1) as [cur|] eqn:Hcur; simpl;
    [|no_entry].
  apply iloc_neg_last in Hcur.
  destruct (Qle_bool cur _) eqn:Hle; [|no_entry].
  intros Hin. apply list_elem_of_singleton in Hin as ->. by exists df, closes.
Qed.

Lemma extremes_of_above item (e : Extreme) :
  e ∈ (extremes_of item).2 →
  ∃ df closes, item = (e.1.1, df) ∧ empty df = false
    ∧ columns df !! "Close" = Some closes ∧ last closes = Some e.1.2
    ∧ e.2 = series_min closes
    ∧ Qle_bool ((120 # 100) * e.2) e.1.2 = true.
Proof.
  destruct item as [sym df]. unfold extremes_of, scan_52week, getitem.
  destruct (empty df) eqn:Hne; simpl; [no_entry|].
  destruct (columns df !! "Close") as [closes|] eqn:Hclose; simpl;
    [|no_entry].
  destruct (iloc_neg closes 1) as [cur|] eqn:Hcur; simpl;
    [|no_entry].
  apply iloc_neg_last in Hcur.
  destruct (Qle_bool _ cur) eqn:Hle; [|no_entry].
  intros Hin. apply list_elem_of_singleton in Hin as ->. by exists df, closes.
Qed.

Lemma candidates_below hist (e : Extreme) :
  e ∈ (candidates_52week hist).1 ↔
  ∃ item, item ∈ hist ∧ e ∈ (extremes_of item).1.
Proof.
  rewrite candidates_52week_bind. simpl. rewrite list_elem_of_bind.
  split; intros (item & ? & ?); by exists item.
Qed.

Lemma candidates_above hist (e : Extreme) :
  e ∈ (candidates_52week hist).2 ↔
  ∃ item, item ∈ hist ∧ e ∈ (extremes_of item).2.
Proof.
  rewrite candidates_52week_bind. simpl. rewrite list_elem_of_bind.
  split; intros (item & ? & ?); by exists item.
Qed.

(** The method sorts the candidates and keeps five of each. *)
Lemma get_52week_analysis_candidates hist :
  (get_52week_analysis hist).2
  = (let* below_high := sorted ratio false (candidates_52week hist).1 in
     let* above_low :=
       sorted (λ x, let* r := ratio x in Ok (- r)) false
         (candidates_52week hist).2 in
     Ok (take 5 below_high, take 5 above_low)).
Proof.
  unfold get_52week_analysis, candidates_52week.
  by destruct (foldl scan_52week ([], []) hist).
Qed.

Lemma get_52week_analysis_subset hist below_high above_low :
  (get_52week_analysis hist).2 = Ok (below_high, above_low) →
  below_high ⊆ (candidates_52week hist).1
  ∧ above_low ⊆ (candidates_52week hist).2.
Proof.
  rewrite get_52week_analysis_candidates.
  destruct (sorted ratio _ _) as [bh|] eqn:Hbh; [|done]. simpl.
  destruct (sorted _ _ (candidates_52week hist).2) as [al|] eqn:Hal; [|done].
  simpl. intros [= <- <-].
  apply sorted_perm in Hbh, Hal. rewrite <-Hbh, <-Hal.
  split; apply subseteq_take.
Qed.

(** A dictionary holds one value per key. *)
Lemma dict_unique {A B} (items : list (A * B)) k v1 v2 :
  NoDup items.*1 → (k, v1) ∈ items → (k, v2) ∈ items → v1 = v2.
Proof.
  induction items as [|[k' v'] items IH]; csimpl; intros Hnd H1 H2.
  - by apply elem_of_nil in H1.
  - apply NoDup_cons in Hnd as [Hk Hnd].
    apply elem_of_cons in H1 as [Heq1|H1]; apply elem_of_cons in H2 as [Heq2|H2].
    + congruence.
    + injection Heq1 as -> ->. destruct Hk.
      by apply (list_elem_of_fmap_2 fst _ (k', v2)).
    + injection Heq2 as -> ->. destruct Hk.
      by apply (list_elem_of_fmap_2 fst _ (k', v1)).
    + by apply IH.
Qed.

Lemma elem_of_symbols (l : list Extreme) sym :
  sym ∈ symbols l ↔ ∃ e : Extreme, e ∈ l ∧ e.1.1 = sym.
Proof.
  unfold symbols. rewrite list_elem_of_fmap. split.
  - intros ([s c] & -> & Hsc). apply list_elem_of_fmap in Hsc as (e & He & Hin).
    exists e. split; [done|]. by rewrite <-He.
  - intros (e & Hin & <-). exists e.1. split; [done|].
    by apply list_elem_of_fmap_2.
Qed.


(** C3 (as amended). For every symbol of the map (its keys are distinct)
    whose last close is strictly positive and equal to both the
    highest and the lowest close of its series, the symbol is in
    neither list: not among the candidates, and so not in what
    [get_52week_analysis] returns. *)
Theorem week52_flat_series (hist_data : HistData) sym df closes cur :
  NoDup hist_data.*1 → (sym, df) ∈ hist_data →
  columns df !! "Close" = Some closes → last closes = Some cur →
  0 < cur → series_max closes == cur → series_min closes == cur →
  (sym ∉ symbols (candidates_52week hist_data).1)
  ∧ (sym ∉ symbols (candidates_52week hist_data).2)
  ∧ (∀ below_high above_low,
       (get_52week_analysis hist_data).2 = Ok (below_high, above_low) →
       (sym ∉ symbols below_high) ∧ (sym ∉ symbols above_low)).
Proof.
  intros Hnodup Hin Hclose Hlast Hpos Hmax Hmin.
  assert (∀ e : Extreme, e.1.1 = sym →
            (e ∉ (candidates_52week hist_data).1)
            ∧ (e ∉ (candidates_52week hist_data).2)) as Hnone.
  { intros [[sym' cur'] ext] Hsym. simpl in Hsym. subst sym'.
    rewrite candidates_below, candidates_above.
    split; intros (item & Hitem & He).
    - apply extremes_of_below in He
        as (df' & closes' & -> & _ & Hclose' & Hlast' & Hext & Hle).
      simpl in *.
      assert (df' = df) as -> by (by eapply dict_unique).
      rewrite Hclose in Hclose'. injection Hclose' as <-.
      rewrite Hlast in Hlast'. injection Hlast' as <-.
      subst ext. apply Qle_bool_iff in Hle. lra.
    - apply extremes_of_above in He
        as (df' & closes' & -> & _ & Hclose' & Hlast' & Hext & Hle).
      simpl in *.
      assert (df' = df) as -> by (by eapply dict_unique).
      rewrite Hclose in Hclose'. injection Hclose' as <-.
      rewrite Hlast in Hlast'. injection Hlast' as <-.
      subst ext. apply Qle_bool_iff in Hle. lra. }
  assert (∀ l : list Extreme, (∀ e : Extreme, e.1.1 = sym → e ∉ l) →
            sym ∉ symbols l) as Hsyms.
  { intros l Hl Hs. apply list_elem_of_fmap in Hs as ([s c] & Hs & Hsc).
    apply list_elem_of_fmap in Hsc as (e & He & Hel).
    apply (Hl e); [|done]. rewrite <-He. by simpl in Hs. }
  split; [|split].
  - apply Hsyms. intros e He. by apply Hnone.
  - apply Hsyms. intros e He. by apply Hnone.
  - intros below_high above_low Hres.
    apply get_52week_analysis_subset in Hres as [Hb Ha].
    split; apply Hsyms; intros e He Hin'; [apply Hb in Hin'|apply Ha in Hin'];
      by destruct (Hnone e He).
Qed.

(** A series that stays at -1: the symbol is put in both lists. *)
Lemma week52_flat_negative :
  (get_52week_analysis [("U"%string, series [-1; -1; -1])]).2
  = Ok ([("U"%string, -1, -1)], [("U"%string, -1, -1)]).
Proof. reflexivity. Qed.

(** ** The ranking keys of [get_52week_analysis] *)

Lemma ratio_positive (e : Extreme) : 0 < e.2 → ratio e = Ok (e.1.2 / e.2).
Proof.
  intros Hpos. unfold ratio, truediv.
  destruct (Qeq_bool e.2 0) eqn:Hz; [|done].
  apply Qeq_bool_iff in Hz. lra.
Qed.

(** C10. If every non-empty series of the map has a strictly positive
    highest and lowest close, [get_52week_analysis] returns: every
    candidate of either list has a strictly positive extreme price, so
    each ranking key [current / extreme] is a number and neither sort
    raises. *)
Theorem week52_total (hist_data : HistData) :
  (∀ sym df closes, (sym, df) ∈ hist_data →
     columns df !! "Close" = Some closes → closes ≠ [] →
     0 < series_max closes ∧ 0 < series_min closes) →
  Forall (λ e : Extreme, 0 < e.2 ∧ ratio e = Ok (e.1.2 / e.2))
    ((candidates_52week hist_data).1 ++ (candidates_52week hist_data).2)
  ∧ ∃ below_high above_low,
      (get_52week_analysis hist_data).2 = Ok (below_high, above_low).
Proof.
  intros Hpos.
  assert (Forall (λ e : Extreme, 0 < e.2 ∧ ratio e = Ok (e.1.2 / e.2))
            (candidates_52week hist_data).1) as Hbelow.
  { apply Forall_forall. intros e He.
    apply candidates_below in He as ([sym df] & Hin & He).
    apply extremes_of_below in He
      as (df' & closes & [= -> <-] & _ & Hclose & Hlast & Hext & _).
    assert (0 < e.2) as Hpe.
    { rewrite Hext. refine (proj1 (Hpos _ _ _ Hin Hclose _)).
      intros ->. done. }
    split; [done|]. by apply ratio_positive. }
  assert (Forall (λ e : Extreme, 0 < e.2 ∧ ratio e = Ok (e.1.2 / e.2))
            (candidates_52week hist_data).2) as Habove.
  { apply Forall_forall. intros e He.
    apply candidates_above in He as ([sym df] & Hin & He).
    apply extremes_of_above in He
      as (df' & closes & [= -> <-] & _ & Hclose & Hlast & Hext & _).
    assert (0 < e.2) as Hpe.
    { rewrite Hext. refine (proj2 (Hpos _ _ _ Hin Hclose _)).
      intros ->. done. }
    split; [done|]. by apply ratio_positive. }
  split; [by apply Forall_app|].
  rewrite get_52week_analysis_candidates.
  destruct (sorted_returns ratio false (candidates_52week hist_data).1)
    as [below_high ->].
  { eapply Forall_impl; [exact Hbelow|]. by intros e [_ ->]. }
  destruct (sorted_returns (λ x, let* r := ratio x in Ok (- r)) false
              (candidates_52week hist_data).2) as [above_low ->].
  { eapply Forall_impl; [exact Habove|]. by intros e [_ ->]. }
  by eexists _, _.
Qed.

(** C9, the failing input.  A symbol whose closes are the Python number
    0 passes both tests of the loop (0 <= 0.70 * 0 and 0 >= 1.20 * 0);
    its ranking key 0 / 0 is computed by [sorted], behind the loop and
    outside its handler, and the [ZeroDivisionError] leaves the method:
    the entry of the other symbol, which the method returns when the
    zero series is absent, is lost with it. *)
Lemma week52_zero_price_aborts :
  (get_52week_analysis
     [("S"%string, series [100; 90; 80; 70; 60; 50]);
      ("X"%string, series [0; 0])]).2
  = Raise ZeroDivisionError
  ∧ (get_52week_analysis
       [("S"%string, series [100; 90; 80; 70; 60; 50])]).2
    = Ok ([("S"%string, 50, 100)], []).
Proof. split; reflexivity. Qed.

(** ** The loop of [get_30day_returns] *)

Lemma scan_30day_app returns item :
  scan_30day returns item = returns ++ return_of item.
Proof.
  destruct item as [sym df]. unfold return_of, scan_30day, getitem.
  destruct (nrows df <? 30)%nat; simpl; [by rewrite app_nil_r|].
  destruct (columns df !! "Close") as [close|]; simpl; [|by rewrite app_nil_r].
  destruct (iloc_neg close 1); simpl; [|by rewrite app_nil_r].
  destruct (iloc_neg close 30); simpl; [|by rewrite app_nil_r].
  destruct (truediv _ _); simpl; [done|by rewrite app_nil_r].
Qed.

Lemma foldl_scan_30day hist returns :
  foldl scan_30day returns hist = returns ++ (hist ≫= return_of).
Proof.
  revert returns. induction hist as [|item hist IH]; intros returns; simpl.
  - by rewrite app_nil_r.
  - by rewrite IH, scan_30day_app, <-(assoc_L (++)).
Qed.

Lemma return_of_series sym df closes cur c :
  (30 ≤ nrows df)%nat → columns df !! "Close" = Some closes →
  last closes = Some cur →
  (30 ≤ length closes)%nat → closes !! (length closes - 30)%nat = Some c →
  ¬ c == 0 →
  return_of (sym, df) = [(sym, (cur - c) / c * 100)].
Proof.
  intros Hrows Hclose Hlast Hlen Hc Hnz.
  apply iloc_neg_last in Hlast.
  assert (iloc_neg closes 30 = Ok c) as H30 by (apply iloc_neg_Ok; split; [lia|done]).
  unfold return_of, scan_30day, getitem, truediv.
  apply Nat.ltb_ge in Hrows. rewrite Hrows, Hclose. simpl.
  rewrite Hlast. simpl. rewrite H30. simpl.
  destruct (Qeq_bool c 0) eqn:Hz; [|done].
  by apply Qeq_bool_iff in Hz.
Qed.

Lemma return_of_short sym df : (nrows df < 30)%nat → return_of (sym, df) = [].
Proof.
  intros Hrows. unfold return_of, scan_30day.
  apply Nat.ltb_lt in Hrows. by rewrite Hrows.
Qed.

Lemma return_of_entry item (e : string * Q) :
  e ∈ return_of item →
  ∃ df closes cur c,
    item = (e.1, df) ∧ return_of item = [e] ∧ (30 ≤ nrows df)%nat
    ∧ columns df !! "Close" = Some closes ∧ last closes = Some cur
    ∧ (30 ≤ length closes)%nat
    ∧ closes !! (length closes - 30)%nat = Some c
    ∧ ¬ c == 0 ∧ e.2 = (cur - c) / c * 100.
Proof.
  destruct item as [sym df]. unfold return_of, scan_30day, getitem, truediv.
  destruct (nrows df <? 30)%nat eqn:Hrows; simpl; [no_entry|].
  apply Nat.ltb_ge in Hrows.
  destruct (columns df !! "Close") as [closes|] eqn:Hclose; simpl; [|no_entry].
  destruct (iloc_neg closes 1) as [cur|] eqn:Hcur; simpl; [|no_entry].
  destruct (iloc_neg closes 30) as [c|] eqn:Hc; simpl; [|no_entry].
  destruct (Qeq_bool c 0) eqn:Hz; simpl; [no_entry|].
  apply iloc_neg_last in Hcur. apply iloc_neg_Ok in Hc as [[_ Hlen] Hc].
  apply Qeq_bool_neq in Hz.
  intros Hin. apply list_elem_of_singleton in Hin as ->.
  by exists df, closes, cur, c.
Qed.

(** The method returns its entries, rearranged so that the returns
    descend. *)
Lemma get_30day_returns_sorted hist :
  ∃ result, (get_30day_returns hist).2 = Ok result
            ∧ result ≡ₚ hist ≫= return_of
            ∧ StronglySorted (λ a b : string * Q, b.2 <= a.2) result.
Proof.
  unfold get_30day_returns. simpl.
  destruct (sorted_returns (λ x : string * Q, Ok x.2) true
              (foldl scan_30day [] hist)) as [result Hres].
  { by apply Forall_true. }
  exists result. split; [done|]. split.
  - apply sorted_perm in Hres. by rewrite Hres, foldl_scan_30day.
  - by apply sorted_descending in Hres.
Qed.

Lemma return_of_symbol item (e : string * Q) :
  e ∈ return_of item → e.1 = item.1.
Proof. intros He. by apply return_of_entry in He as (?&?&?&?&->&_). Qed.

Lemma filter_none {A} (P : A → Prop) `{∀ x, Decision (P x)} (l : list A) :
  Forall (λ x, ¬ P x) l → filter P l = [].
Proof.
  induction 1 as [|x l Hx _ IH]; [done|]. by rewrite filter_cons_False.
Qed.

Lemma filter_all {A} (P : A → Prop) `{∀ x, Decision (P x)} (l : list A) :
  Forall P l → filter P l = l.
Proof.
  induction 1 as [|x l Hx _ IH]; [done|].
  rewrite filter_cons_True by done. by rewrite IH.
Qed.

Lemma return_of_filter_other k v sym :
  k ≠ sym → filter (λ e : string * Q, e.1 = sym) (return_of (k, v)) = [].
Proof.
  intros Hne. apply filter_none, Forall_forall. intros e He.
  apply return_of_symbol in He. simpl in He. congruence.
Qed.

Lemma return_of_filter_same sym v :
  filter (λ e : string * Q, e.1 = sym) (return_of (sym, v))
  = return_of (sym, v).
Proof.
  apply filter_all, Forall_forall. intros e He.
  by apply return_of_symbol in He.
Qed.

Lemma returns_of_absent (hist : HistData) sym :
  sym ∉ hist.*1 →
  filter (λ e : string * Q, e.1 = sym) (hist ≫= return_of) = [].
Proof.
  induction hist as [|[k v] hist IH]; [done|].
  rewrite fmap_cons, bind_cons, filter_app.
  intros [Hk Hl]%not_elem_of_cons.
  by rewrite IH, return_of_filter_other.
Qed.

(** The entries of one symbol are those its own series contributes. *)
Lemma returns_of_symbol (hist : HistData) sym df :
  NoDup hist.*1 → (sym, df) ∈ hist →
  filter (λ e : string * Q, e.1 = sym) (hist ≫= return_of)
  = return_of (sym, df).
Proof.
  induction hist as [|[k v] hist IH]; intros Hnd Hin.
  - by apply elem_of_nil in Hin.
  - rewrite fmap_cons in Hnd. simpl in Hnd.
    apply NoDup_cons in Hnd as [Hk Hnd]. rewrite bind_cons, filter_app.
    apply elem_of_cons in Hin as [[= <- <-]|Hin].
    + by rewrite returns_of_absent, return_of_filter_same, app_nil_r.
    + rewrite IH by done. rewrite return_of_filter_other; [done|].
      intros ->. destruct Hk. by apply (list_elem_of_fmap_2 fst _ (sym, df)).
Qed.

(** C6 (as amended). For every symbol of the map (its keys are
    distinct) whose frame has a column of closes, [get_30day_returns]
    returns (short series raise nothing), and in what it returns the
    symbol has no entry when its series is shorter than 30, and
    exactly one entry when its series has 30 closes or more and the
    30th close from the end is not zero. *)
Theorem returns_30day_threshold (hist_data : HistData) sym df closes :
  NoDup hist_data.*1 → (sym, df) ∈ hist_data →
  columns df !! "Close" = Some closes → nrows df = length closes →
  ∃ result,
    (get_30day_returns hist_data).2 = Ok result
    ∧ ((length closes < 30)%nat →
       filter (λ e : string * Q, e.1 = sym) result = [])
    ∧ ((30 ≤ length closes)%nat →
       ∀ c, closes !! (length closes - 30)%nat = Some c → ¬ c == 0 →
       ∃ r, filter (λ e : string * Q, e.1 = sym) result = [(sym, r)]).
Proof.
  intros Hnd Hin Hclose Hrows.
  destruct (get_30day_returns_sorted hist_data) as (result & Hres & Hperm & _).
  exists result. split; [done|].
  assert (filter (λ e : string * Q, e.1 = sym) result
          ≡ₚ return_of (sym, df)) as Hsym.
  { by rewrite Hperm, (returns_of_symbol _ _ df). }
  split.
  - intros Hshort. rewrite return_of_short in Hsym by lia.
    by apply Permutation_nil_r in Hsym.
  - intros Hlong c Hc Hnz.
    assert (is_Some (last closes)) as [cur Hcur].
    { rewrite last_lookup. apply lookup_lt_is_Some. lia. }
    rewrite (return_of_series sym df closes cur c) in Hsym by (done || lia).
    apply Permutation_singleton_r in Hsym. eauto.
Qed.

(** Thirty closes of the Python number 0: the reference close is zero,
    the division raises inside the handler, and the symbol gets no
    entry. *)
Lemma returns_30day_zero_reference :
  (get_30day_returns [("Z"%string, series (replicate 30 0))]).2 = Ok [].
Proof. reflexivity. Qed.


(** ** The methods at sample inputs *)

Example seven_quotes_ranked :
  ∃ gainers losers,
    (@get_top_gainers_losers stable_quicksort seven_quotes).2
    = Ok (gainers, losers)
    ∧ gainers !! "symbol"
      = Some [CStr "B"; CStr "F"; CStr "G"; CStr "A"; CStr "D"]
    ∧ gainers !! "pChange"
      = Some (CFloat <$> [Fin 4; Fin 4; Fin 3; Fin (3 # 2); Fin (1 # 4)])
    ∧ losers !! "symbol"
      = Some [CStr "C"; CStr "E"; CStr "D"; CStr "A"; CStr "G"]
    ∧ losers !! "pChange"
      = Some (CFloat <$> [Fin (-2); Fin (-7 # 10); Fin (1 # 4); Fin (3 # 2); Fin 3]).
Proof. eexists _, _. split; [reflexivity|]. by vm_compute. Qed.

Example three_series_ranked :
  (get_52week_analysis three_series).2
  = Ok ([("FALL"%string, 50, 100)], [("RISE"%string, 13, 10)]).
Proof. reflexivity. Qed.

Example two_series_returns :
  ∃ r, (get_30day_returns two_series).2 = Ok [("LONG"%string, r)] ∧ r == 10.
Proof. eexists. split; reflexivity. Qed.

Example missing_close_skipped :
  (get_52week_analysis
     [("A"%string, {| nrows := 3; columns := {[ "Open" := [1; 2; 3] ]} |});
      ("B"%string, series [10; 11; 13])]).2
  = Ok ([], [("B"%string, 13, 10)])
  ∧ (get_30day_returns
       [("A"%string, {| nrows := 40; columns := {[ "Open" := [1; 2; 3] ]} |});
        ("B"%string, series long_closes)]).2
    = (get_30day_returns [("B"%string, series long_closes)]).2.
Proof. split; reflexivity. Qed.

(** ** The theorems at sample inputs *)

Lemma top_gainers_losers_sorted_witness :
  ∃ gainers losers gs ls,
    (@get_top_gainers_losers stable_quicksort seven_quotes).2
    = Ok (gainers, losers)
    ∧ gainers !! "pChange" = Some (CFloat <$> gs)
    ∧ losers !! "pChange" = Some (CFloat <$> ls)
    ∧ length gs = min 5 (length seven_cells)
    ∧ length ls = min 5 (length seven_cells)
    ∧ StronglySorted (flip float_le) gs ∧ StronglySorted float_le ls
    ∧ (length seven_cells ≤ 5 → gs ≡ₚ seven_changes ∧ ls ≡ₚ seven_changes)
    ∧ (∀ name c, name ≠ "pChange" → seven_quotes !! name = Some c →
         length c = length seven_cells →
         ∃ gc lc, gainers !! name = Some gc ∧ losers !! name = Some lc
                  ∧ length gc = min 5 (length seven_cells)
                  ∧ length lc = min 5 (length seven_cells)
                  ∧ (length seven_cells ≤ 5 → gc ≡ₚ c ∧ lc ≡ₚ c)).
Proof.
  apply (@top_gainers_losers_sorted stable_quicksort
           stable_quicksort_contract seven_quotes seven_cells seven_changes).
  - reflexivity.
  - reflexivity.
  - repeat constructor.
Defined.


Lemma week52_flat_series_witness :
  ("FLAT"%string ∉ symbols (candidates_52week three_series).1)
  ∧ ("FLAT"%string ∉ symbols (candidates_52week three_series).2)
  ∧ (∀ below_high above_low,
       (get_52week_analysis three_series).2 = Ok (below_high, above_low) →
       ("FLAT"%string ∉ symbols below_high)
       ∧ ("FLAT"%string ∉ symbols above_low)).
Proof.
  apply (week52_flat_series three_series "FLAT"
           (series [42; 42; 42]) [42; 42; 42] 42).
  - apply (bool_decide_unpack (NoDup _)). by vm_compute.
  - apply list_elem_of_further, list_elem_of_here.
  - reflexivity.
  - reflexivity.
  - reflexivity.
  - reflexivity.
  - reflexivity.
Defined.

Lemma week52_total_witness :
  Forall (λ e : Extreme, 0 < e.2 ∧ ratio e = Ok (e.1.2 / e.2))
    ((candidates_52week three_series).1 ++ (candidates_52week three_series).2)
  ∧ ∃ below_high above_low,
      (get_52week_analysis three_series).2 = Ok (below_high, above_low).
Proof.
  apply (week52_total three_series).
  intros sym df closes Hin Hclose _. unfold three_series in Hin.
  repeat (apply elem_of_cons in Hin as [Hin|Hin]);
    [| | |by apply elem_of_nil in Hin];
    injection Hin as -> ->; simpl in Hclose;
    rewrite lookup_singleton_eq in Hclose; injection Hclose as <-;
    split; reflexivity.
Defined.

Lemma returns_30day_threshold_witness :
  ∃ result,
    (get_30day_returns two_series).2 = Ok result
    ∧ ((length long_closes < 30)%nat →
       filter (λ e : string * Q, e.1 = "LONG"%string) result = [])
    ∧ ((30 ≤ length long_closes)%nat →
       ∀ c, long_closes !! (length long_closes - 30)%nat = Some c →
       ¬ c == 0 →
       ∃ r, filter (λ e : string * Q, e.1 = "LONG"%string) result
            = [("LONG"%string, r)]).
Proof.
  apply (returns_30day_threshold two_series "LONG" (series long_closes)).
  - apply (bool_decide_unpack (NoDup _)). by vm_compute.
  - apply list_elem_of_here.
  - reflexivity.
  - reflexivity.
Defined.

(** * Further properties of the code *)

(** ** Reading and ranking the snapshot *)

Lemma str_replace_percent_app (a b : string) :
  str_replace_percent (a +:+ b)
  = str_replace_percent a +:+ str_replace_percent b.
Proof.
  induction a as [|c a IH]; [done|]. simpl.
  destruct (Ascii.eqb c "%"); simpl; by rewrite IH.
Qed.

(** X1. A percent sign is dropped wherever it stands in the text of a
    cell, not only at its end: the text with the sign and the text
    without it are read alike (both give the same float, or both are
    rejected with the same message). *)
Theorem percent_sign_ignored (a b : string) :
  pchange_of_cell (CStr (a +:+ "%" +:+ b)) = pchange_of_cell (CStr (a +:+ b)).
Proof.
  unfold pchange_of_cell. by rewrite !str_replace_percent_app.
Qed.

Lemma traverse_pchange_of_floats (xs : list float) :
  traverse pchange_of_cell (CFloat <$> xs) = Ok xs.
Proof. induction xs as [|x xs IH]; [done|]. csimpl. by rewrite IH. Qed.

(** X2. A second call on the table the first call has left behind
    gives the same outcome and leaves the table as it is: the table
    with the stored floats is a fixed point of the method. *)
Theorem top_gainers_losers_again `{Argsort} (live_df : DataFrame) :
  get_top_gainers_losers (get_top_gainers_losers live_df).1
  = get_top_gainers_losers live_df.
Proof.
  destruct (live_df !! "pChange") as [col|] eqn:Hcol.
  2:{ assert (get_top_gainers_losers live_df
              = (live_df, Raise (KeyError "pChange"))) as Hrun
        by (unfold get_top_gainers_losers; by rewrite Hcol).
      by rewrite Hrun. }
  destruct (traverse pchange_of_cell col) as [xs|e] eqn:Hxs.
  2:{ assert (get_top_gainers_losers live_df = (live_df, Raise e)) as Hrun
        by (unfold get_top_gainers_losers; by rewrite Hcol, Hxs).
      by rewrite Hrun. }
  rewrite (get_top_gainers_losers_ok live_df col xs Hcol Hxs). simpl.
  rewrite (get_top_gainers_losers_ok _ (CFloat <$> xs) xs);
    [|apply lookup_insert_eq|apply traverse_pchange_of_floats].
  simpl. by rewrite insert_insert_eq.
Qed.

Section ranking.
Context `{ArgsortContract}.

(** X3. The gainers are the rows of the five largest percent changes
    and the losers those of the five smallest: on a table that can be
    read and holds no [nan], both outputs are cut from the whole table
    reordered by one indexer each (every column alike, so a row stays
    together), and no row that is left out has a larger percent change
    than a gainer, or a smaller one than a loser. *)
Theorem top_gainers_losers_extreme (live_df : DataFrame) col xs :
  live_df !! "pChange" = Some col →
  traverse pchange_of_cell col = Ok xs →
  Forall (λ x, isna x = false) xs →
  ∃ gi li,
    let stored := <["pChange" := CFloat <$> xs]> live_df in
    (get_top_gainers_losers live_df).2
    = Ok (head 5 (take_at gi <$> stored), head 5 (take_at li <$> stored))
    ∧ gi ≡ₚ seq 0 (length col) ∧ li ≡ₚ seq 0 (length col)
    ∧ (∀ i j x y, i ∈ take 5 gi → j ∈ drop 5 gi →
         xs !! i = Some x → xs !! j = Some y → float_le y x)
    ∧ (∀ i j x y, i ∈ take 5 li → j ∈ drop 5 li →
         xs !! i = Some x → xs !! j = Some y → float_le x y).
Proof.
  intros Hcol Hxs Hfin.
  exists (nargsort xs false), (nargsort xs true). simpl.
  rewrite (get_top_gainers_losers_ok _ _ _ Hcol Hxs). simpl.
  rewrite <-(length_traverse _ _ _ Hxs).
  split; [done|]. split; [apply nargsort_perm|]. split; [apply nargsort_perm|].
  split.
  - intros i j x y Hi Hj Hx Hy.
    pose proof (StronglySorted_positions _ _ _ (nargsort_descending xs Hfin))
      as Hs.
    rewrite <-(take_drop 5 (nargsort xs false)) in Hs.
    by apply (StronglySorted_app_1_elem_of _ _ _ i j Hs Hi Hj x y).
  - intros i j x y Hi Hj Hx Hy.
    pose proof (StronglySorted_positions _ _ _ (nargsort_ascending xs Hfin))
      as Hs.
    rewrite <-(take_drop 5 (nargsort xs true)) in Hs.
    by apply (StronglySorted_app_1_elem_of _ _ _ i j Hs Hi Hj x y).
Qed.

Lemma length_filter_zip_seq (j : nat) (l : list float) :
  length (filter (λ e : nat * float, ¬ isna e.2) (zip (seq j (length l)) l))
  = length (filter (λ x, ¬ isna x) l).
Proof.
  revert j. induction l as [|x l IH]; intros j; [done|]. simpl.
  rewrite !filter_cons. simpl.
  destruct (decide (¬ isna x)); simpl; by rewrite IH.
Qed.

Lemma nargsort_nan_last items ascending :
  ∃ front back,
    take_at (nargsort items ascending) items = front ++ back
    ∧ Forall (λ x, isna x = false) front
    ∧ Forall (λ x, isna x = true) back
    ∧ length front = length (filter (λ x, ¬ isna x) items).
Proof.
  rewrite take_at_nargsort. unfold nargsort_rows.
  set (entries := zip (seq 0 (length items)) items).
  set (non_nan := filter (λ e : nat * float, ¬ isna e.2) entries).
  set (ordered := take_at _ _).
  assert (ordered ≡ₚ non_nan) as Hord.
  { unfold ordered. rewrite take_at_argsort_perm by (by rewrite length_fmap).
    by destruct ascending; rewrite ?reverse_Permutation. }
  exists (if ascending then ordered else reverse ordered).*2,
         (filter (λ e : nat * float, isna e.2) entries).*2.
  split; [by rewrite fmap_app|]. split; [|split].
  - rewrite Forall_fmap.
    assert (Forall (λ e : nat * float, isna e.2 = false) ordered) as Hall.
    { rewrite Hord. apply Forall_forall. intros e He.
      apply list_elem_of_filter in He as [He _].
      by destruct (isna e.2); [destruct He|]. }
    destruct ascending; [done|]. by rewrite reverse_Permutation.
  - rewrite Forall_fmap. apply Forall_forall. intros e He.
    apply list_elem_of_filter in He as [He _]. simpl.
    by destruct (isna e.2).
  - rewrite length_fmap.
    transitivity (length ordered);
      [by destruct ascending; rewrite ?length_reverse|].
    rewrite Hord. apply length_filter_zip_seq.
Qed.

(** X4. A quote whose percent change is missing never outranks one
    that has a value: on every table that can be read, the percent
    changes of the whole ranking behind either output have their [nan]
    at the end, and when at least five quotes have a value neither the
    gainers nor the losers hold a [nan]. *)
Theorem missing_changes_rank_last (live_df : DataFrame) col xs :
  live_df !! "pChange" = Some col →
  traverse pchange_of_cell col = Ok xs →
  ∃ gainers losers gs ls,
    (get_top_gainers_losers live_df).2 = Ok (gainers, losers)
    ∧ gainers !! "pChange" = Some (CFloat <$> take 5 gs)
    ∧ losers !! "pChange" = Some (CFloat <$> take 5 ls)
    ∧ gs ≡ₚ xs ∧ ls ≡ₚ xs ∧ nan_last gs ∧ nan_last ls
    ∧ (5 ≤ length (filter (λ x, ¬ isna x) xs) →
       Forall (λ x, isna x = false) (take 5 gs)
       ∧ Forall (λ x, isna x = false) (take 5 ls)).
Proof.
  intros Hcol Hxs.
  rewrite (get_top_gainers_losers_ok _ _ _ Hcol Hxs). simpl.
  set (stored := <["pChange" := CFloat <$> xs]> live_df).
  assert (stored !! "pChange" = Some (CFloat <$> xs)) as Hst
    by apply lookup_insert_eq.
  exists (head 5 (take_at (nargsort xs false) <$> stored)),
         (head 5 (take_at (nargsort xs true) <$> stored)),
         (take_at (nargsort xs false) xs), (take_at (nargsort xs true) xs).
  split; [done|].
  split; [by apply head_sorted_column|].
  split; [by apply head_sorted_column|].
  split; [apply take_at_perm, nargsort_perm|].
  split; [apply take_at_perm, nargsort_perm|].
  destruct (nargsort_nan_last xs false) as (gf & gb & Hg & Hgf & Hgb & Hgl).
  destruct (nargsort_nan_last xs true) as (lf & lb & Hl & Hlf & Hlb & Hll).
  split; [by exists gf, gb|]. split; [by exists lf, lb|].
  intros Hfive. rewrite Hg, Hl, !take_app_le by lia.
  split; by apply Forall_take.
Qed.

End ranking.

(** ** Order of arrival *)

Lemma StronglySorted_of_lookup {A} (R : relation A) (l : list A) :
  (∀ i j x y, (i < j)%nat → l !! i = Some x → l !! j = Some y → R x y) →
  StronglySorted R l.
Proof.
  induction l as [|x l IH]; intros Hl; constructor.
  - apply IH. intros i j a b Hij Ha Hb. apply (Hl (S i) (S j)); [lia|done..].
  - apply Forall_lookup. intros j y Hy. apply (Hl 0%nat (S j)); [lia|done..].
Qed.

Lemma StronglySorted_precedes {A} (l : list A) : StronglySorted (precedes l) l.
Proof.
  apply StronglySorted_of_lookup. intros i j x y Hij Hx Hy. by exists i, j.
Qed.

Lemma precedes_sublist {A} (l : list A) (a b : A) :
  precedes l a b ↔ [a; b] `sublist_of` l.
Proof.
  split.
  - intros (i & j & Hij & Ha & Hb).
    rewrite <-(take_drop_middle l i a Ha).
    apply sublist_inserts_l, sublist_skip, singleton_sublist_l.
    apply list_elem_of_lookup. exists (j - S i)%nat.
    rewrite lookup_drop, <-Hb. f_equal. lia.
  - induction l as [|x l IH]; intros Hs.
    + by apply sublist_nil_r in Hs.
    + apply sublist_cons_r in Hs as [Hs|(l' & Heq & Hs)].
      * destruct (IH Hs) as (i & j & Hij & Ha & Hb).
        exists (S i), (S j). split; [lia|done].
      * injection Heq as -> <-. apply singleton_sublist_l in Hs.
        apply list_elem_of_lookup in Hs as [j Hb].
        exists 0%nat, (S j). split; [lia|done].
Qed.

Lemma precedes_fmap {A B} (f : A → B) (l : list A) (a b : A) :
  precedes l a b → precedes (f <$> l) (f a) (f b).
Proof.
  intros (i & j & Hij & Ha & Hb). exists i, j.
  by rewrite !list_lookup_fmap, Ha, Hb.
Qed.

Lemma precedes_zip {A B} (ks : list A) (l : list B) (p q : A * B) :
  precedes (zip ks l) p q → precedes l p.2 q.2.
Proof.
  destruct p as [ka a], q as [kb b]. intros (i & j & Hij & Hp & Hq).
  exists i, j.
  apply lookup_zip_Some in Hp as [_ Hp]. apply lookup_zip_Some in Hq as [_ Hq].
  done.
Qed.

(** What a loop collects, one entry at most per item and under the
    item's key, lists its keys in the order of the items. *)
Lemma bind_sublist_keys {A B} (f : string * A → list B) (g : B → string)
    (items : list (string * A)) :
  (∀ item, length (f item) ≤ 1) →
  (∀ item e, e ∈ f item → g e = item.1) →
  g <$> (items ≫= f) `sublist_of` items.*1.
Proof.
  intros Hone Hkey. induction items as [|item items IH]; [done|].
  rewrite bind_cons, fmap_app, fmap_cons.
  specialize (Hone item). specialize (Hkey item).
  destruct (f item) as [|e [|e' l]]; simpl in *.
  - by apply sublist_cons.
  - rewrite (Hkey e) by (apply elem_of_cons; by left). by apply sublist_skip.
  - lia.
Qed.

(** ** Python's [sorted], in full *)

Lemma traverse_zip {A B} (f : A → result B) (l : list A) (ys : list B) :
  traverse f l = Ok ys → Forall (λ p, f p.2 = Ok p.1) (zip ys l).
Proof.
  revert ys. induction l as [|x l IH]; intros ys; simpl.
  - intros [= <-]. constructor.
  - destruct (f x) as [y|] eqn:Hy; simpl; [|done].
    destruct (traverse f l) as [ys'|]; simpl; [|done].
    intros [= <-]. constructor; [done|by apply IH].
Qed.

Lemma traverse_raise {A B} (f : A → result B) (l : list A) e :
  traverse f l = Raise e → ∃ x, x ∈ l ∧ f x = Raise e.
Proof.
  induction l as [|x l IH]; simpl; [done|].
  destruct (f x) as [y|e'] eqn:Hy; simpl.
  - destruct (traverse f l) as [ys'|e']; simpl; [done|].
    intros [= <-]. destruct IH as (z & Hz & Hfz); [done|].
    exists z. split; [apply elem_of_cons; by right|done].
  - intros [= <-]. exists x. split; [apply elem_of_cons; by left|done].
Qed.

Lemma traverse_keys {A B} (f : A → result B) (l : list A) (ys : list B) :
  traverse f l = Ok ys → Forall (λ x, ∃ y, f x = Ok y) l.
Proof.
  revert ys. induction l as [|x l IH]; intros ys; simpl; [by constructor|].
  destruct (f x) as [y|] eqn:Hy; simpl; [|done].
  destruct (traverse f l) as [ys'|]; simpl; [|done].
  intros _. constructor; [by exists y|by apply (IH ys')].
Qed.

Lemma sorted_raise {A} (key : A → result Q) rev_ (l : list A) e :
  sorted key rev_ l = Raise e → ∃ x, x ∈ l ∧ key x = Raise e.
Proof.
  unfold sorted. destruct (traverse key l) eqn:Hkeys; simpl; [done|].
  intros [= <-]. by apply traverse_raise.
Qed.

Lemma sorted_keys {A} (key : A → result Q) rev_ (l l' : list A) :
  sorted key rev_ l = Ok l' → Forall (λ x, ∃ k, key x = Ok k) l.
Proof.
  unfold sorted. destruct (traverse key l) eqn:Hkeys; simpl; [|done].
  intros _. by apply traverse_keys in Hkeys.
Qed.

(** The list [sorted] returns is in the order of the keys, ascending or,
    with [reverse=True], descending; and in either case two elements
    with equal keys stand as they stood in the argument. *)
Lemma sorted_stably {A} (key : A → result Q) rev_ (l l' : list A) :
  sorted key rev_ l = Ok l' →
  StronglySorted
    (λ a b, ∀ ka kb, key a = Ok ka → key b = Ok kb →
       (if rev_ then kb <= ka else ka <= kb) ∧ (ka == kb → precedes l a b))
    l'.
Proof.
  unfold sorted. destruct (traverse key l) as [keys|] eqn:Hkeys; simpl; [|done].
  intros [= <-]. apply traverse_zip in Hkeys.
  set (decorated := zip keys l) in *.
  set (lt := λ a b : Q * A, Qltb a.1 b.1).
  apply (StronglySorted_fmap _
    (λ p q : Q * A, ∀ ka kb, key p.2 = Ok ka → key q.2 = Ok kb →
       (if rev_ then kb <= ka else ka <= kb)
       ∧ (ka == kb → precedes l p.2 q.2))); [done|].
  destruct rev_.
  - apply (StronglySorted_weaken (λ p : Q * A, key p.2 = Ok p.1)
             (flip (stably lt (flip (precedes decorated))))).
    + by rewrite reverse_Permutation, insertion_sort_perm, reverse_Permutation.
    + intros p q Hp Hq [Hle Htie] ka kb Ha Hb.
      rewrite Hp in Ha. rewrite Hq in Hb.
      injection Ha as <-. injection Hb as <-.
      unfold le_of, lt, Qltb in *.
      rewrite negb_false_iff, Qle_bool_iff in Hle. split; [done|].
      intros Heq. apply (precedes_zip keys), Htie.
      rewrite negb_false_iff, Qle_bool_iff, Heq. apply Qle_refl.
    + apply StronglySorted_reverse, insertion_sort_stably;
        [apply Qltb_asym | apply Qltb_le_trans |].
      apply StronglySorted_reverse, StronglySorted_precedes.
  - apply (StronglySorted_weaken (λ p : Q * A, key p.2 = Ok p.1)
             (stably lt (precedes decorated))).
    + by rewrite insertion_sort_perm.
    + intros p q Hp Hq [Hle Htie] ka kb Ha Hb.
      rewrite Hp in Ha. rewrite Hq in Hb.
      injection Ha as <-. injection Hb as <-.
      unfold le_of, lt, Qltb in *.
      rewrite negb_false_iff, Qle_bool_iff in Hle. split; [done|].
      intros Heq. apply (precedes_zip keys), Htie.
      rewrite negb_false_iff, Qle_bool_iff, Heq. apply Qle_refl.
    + apply insertion_sort_stably;
        [apply Qltb_asym | apply Qltb_le_trans | apply StronglySorted_precedes].
Qed.

(** ** The two rankings of [get_52week_analysis] *)

Lemma ratio_Ok (e : Extreme) k :
  ratio e = Ok k → ¬ e.2 == 0 ∧ k = e.1.2 / e.2.
Proof.
  unfold ratio, truediv. destruct (Qeq_bool e.2 0) eqn:Hz; [done|].
  intros [= <-]. split; [|done]. intros Heq.
  apply Qeq_bool_iff in Heq. congruence.
Qed.

Lemma ratio_Raise (e : Extreme) x :
  ratio e = Raise x → x = ZeroDivisionError ∧ e.2 == 0.
Proof.
  unfold ratio, truediv. destruct (Qeq_bool e.2 0) eqn:Hz; [|done].
  intros [= <-]. split; [done|]. by apply Qeq_bool_iff.
Qed.

Lemma extremes_of_length item :
  length (extremes_of item).1 ≤ 1 ∧ length (extremes_of item).2 ≤ 1.
Proof.
  destruct item as [sym df]. unfold extremes_of, scan_52week, getitem.
  destruct (empty df); simpl; [lia|].
  destruct (columns df !! "Close") as [closes|]; simpl; [|lia].
  destruct (iloc_neg closes 1) as [cur|]; simpl; [|lia].
  destruct (Qle_bool cur _), (Qle_bool _ cur); simpl; lia.
Qed.

Lemma symbols_below_sublist hist :
  symbols (candidates_52week hist).1 `sublist_of` hist.*1.
Proof.
  rewrite candidates_52week_bind. unfold symbols. simpl.
  rewrite <-list_fmap_compose.
  apply (bind_sublist_keys (λ item, (extremes_of item).1) (fst ∘ fst)).
  - intros item. apply extremes_of_length.
  - intros item e He.
    by apply extremes_of_below in He as (df & closes & -> & _).
Qed.

Lemma symbols_above_sublist hist :
  symbols (candidates_52week hist).2 `sublist_of` hist.*1.
Proof.
  rewrite candidates_52week_bind. unfold symbols. simpl.
  rewrite <-list_fmap_compose.
  apply (bind_sublist_keys (λ item, (extremes_of item).2) (fst ∘ fst)).
  - intros item. apply extremes_of_length.
  - intros item e He.
    by apply extremes_of_above in He as (df & closes & -> & _).
Qed.

Lemma precedes_symbols (l : list Extreme) (keys : list string) (a b : Extreme) :
  symbols l `sublist_of` keys → precedes l a b → precedes keys a.1.1 b.1.1.
Proof.
  intros Hsub Hab. apply precedes_sublist. etrans; [|exact Hsub].
  apply precedes_sublist. unfold symbols. rewrite <-list_fmap_compose.
  by apply (precedes_fmap (fst ∘ fst)).
Qed.


Lemma get_52week_analysis_Ok hist out :
  (get_52week_analysis hist).2 = Ok out →
  Forall (λ e : Extreme, ¬ e.2 == 0)
    ((candidates_52week hist).1 ++ (candidates_52week hist).2).
Proof.
  rewrite get_52week_analysis_candidates.
  destruct (sorted ratio _ _) as [below|e] eqn:Hbelow; [|done]. simpl.
  destruct (sorted _ _ (candidates_52week hist).2) as [above|e]
    eqn:Habove; [|done].
  intros _. apply Forall_app. split.
  - eapply Forall_impl; [exact (sorted_keys _ _ _ _ Hbelow)|].
    intros e [k Hk]. by apply ratio_Ok in Hk as [Hnz _].
  - eapply Forall_impl; [exact (sorted_keys _ _ _ _ Habove)|].
    simpl. intros e [k Hk]. destruct (ratio e) as [r|] eqn:Hr; [|done].
    by apply ratio_Ok in Hr as [Hnz _].
Qed.

Lemma get_52week_analysis_Raise hist e :
  (get_52week_analysis hist).2 = Raise e →
  e = ZeroDivisionError
  ∧ Exists (λ e : Extreme, e.2 == 0)
      ((candidates_52week hist).1 ++ (candidates_52week hist).2).
Proof.
  rewrite get_52week_analysis_candidates.
  destruct (sorted ratio _ _) as [below|e'] eqn:Hbelow; simpl.
  - destruct (sorted _ _ (candidates_52week hist).2) as [above|e']
      eqn:Habove; simpl; [done|].
    intros [= <-].
    apply sorted_raise in Habove as (x & Hx & Hkey). simpl in Hkey.
    destruct (ratio x) as [r|e''] eqn:Hr; [done|]. injection Hkey as ->.
    apply ratio_Raise in Hr as [-> Hz]. split; [done|].
    apply Exists_app. right. apply Exists_exists. by exists x.
  - intros [= <-]. apply sorted_raise in Hbelow as (x & Hx & Hkey).
    apply ratio_Raise in Hkey as [-> Hz]. split; [done|].
    apply Exists_app. left. apply Exists_exists. by exists x.
Qed.


Lemma NoDup_symbols_take (l cands : list Extreme) (keys : list string) :
  NoDup keys → symbols cands `sublist_of` keys → l ≡ₚ cands →
  NoDup (symbols (take 5 l)) ∧ symbols (take 5 l) ⊆ keys.
Proof.
  intros Hnd Hsub Hperm.
  assert (symbols l ≡ₚ symbols cands) as Hsym
    by (unfold symbols; by rewrite Hperm).
  assert (symbols (take 5 l) `sublist_of` symbols l) as Htake.
  { unfold symbols. rewrite !fmap_take. apply sublist_take. }
  split.
  - apply (sublist_NoDup _ (symbols l)); [|done].
    rewrite Hsym. by apply (sublist_NoDup _ keys).
  - intros sym Hin. apply (sublist_subseteq _ _ Hsub).
    rewrite <-Hsym. by apply (sublist_subseteq _ _ Htake).
Qed.

(** X7. In a map with distinct keys, neither list that
    [get_52week_analysis] returns names a symbol twice, and every
    symbol named is a key of the map. *)
Theorem week52_symbols_distinct (hist_data : HistData) below_high above_low :
  NoDup hist_data.*1 →
  (get_52week_analysis hist_data).2 = Ok (below_high, above_low) →
  NoDup (symbols below_high) ∧ NoDup (symbols above_low)
  ∧ symbols below_high ⊆ hist_data.*1 ∧ symbols above_low ⊆ hist_data.*1.
Proof.
  intros Hnd. rewrite get_52week_analysis_candidates.
  destruct (sorted ratio _ _) as [below|] eqn:Hbelow; [|done]. simpl.
  destruct (sorted _ _ (candidates_52week hist_data).2) as [above|] eqn:Habove;
    [|done].
  simpl. intros [= <- <-].
  destruct (NoDup_symbols_take below _ _ Hnd (symbols_below_sublist hist_data)
              (sorted_perm _ _ _ _ Hbelow)) as [? ?].
  destruct (NoDup_symbols_take above _ _ Hnd (symbols_above_sublist hist_data)
              (sorted_perm _ _ _ _ Habove)) as [? ?].
  done.
Qed.

(** ** The ranking of [get_30day_returns] *)

Lemma return_of_length item : length (return_of item) ≤ 1.
Proof.
  destruct (return_of item) as [|e l] eqn:Hret; simpl; [lia|].
  assert (e ∈ return_of item) as He by (rewrite Hret; apply elem_of_cons; by left).
  apply return_of_entry in He as (?&?&?&?&_&Hone&_).
  rewrite Hone in Hret. injection Hret as <-. simpl. lia.
Qed.

Lemma returns_sublist (hist : HistData) :
  (hist ≫= return_of).*1 `sublist_of` hist.*1.
Proof.
  apply (bind_sublist_keys return_of fst).
  - apply return_of_length.
  - intros item e He. by apply return_of_symbol.
Qed.

Lemma get_30day_returns_stable (hist : HistData) :
  ∃ result,
    (get_30day_returns hist).2 = Ok result
    ∧ result ≡ₚ hist ≫= return_of
    ∧ StronglySorted
        (λ a b : string * Q,
           b.2 <= a.2 ∧ (a.2 == b.2 → precedes (hist ≫= return_of).*1 a.1 b.1))
        result.
Proof.
  destruct (get_30day_returns_sorted hist) as (result & Hrun & Hperm & _).
  exists result. do 2 (split; [done|]).
  unfold get_30day_returns in Hrun. simpl in Hrun.
  eapply (StronglySorted_weaken (λ _, True));
    [by apply Forall_true| |exact (sorted_stably _ _ _ _ Hrun)].
  simpl. intros a b _ _ Hab.
  destruct (Hab a.2 b.2 eq_refl eq_refl) as [Hle Htie].
  split; [done|]. intros Heq. specialize (Htie Heq).
  rewrite foldl_scan_30day in Htie. simpl in Htie.
  by apply (precedes_fmap fst).
Qed.

Lemma precedes_sublist_of {A} (l k : list A) (a b : A) :
  l `sublist_of` k → precedes l a b → precedes k a b.
Proof.
  intros Hsub Hab. apply precedes_sublist. etrans; [|exact Hsub].
  by apply precedes_sublist.
Qed.


(** ** Symbols the loops pass over *)

Lemma extremes_of_unusable sym df :
  empty df = true ∨ columns df !! "Close" = None
  ∨ columns df !! "Close" = Some [] →
  extremes_of (sym, df) = ([], []).
Proof.
  unfold extremes_of, scan_52week, getitem.
  intros [Hempty|[Hclose|Hclose]].
  - by rewrite Hempty.
  - destruct (empty df); [done|]. by rewrite Hclose.
  - destruct (empty df); [done|]. by rewrite Hclose.
Qed.

Lemma return_of_unusable sym df :
  (nrows df < 30)%nat ∨ columns df !! "Close" = None
  ∨ (∃ closes, columns df !! "Close" = Some closes
               ∧ ((length closes < 30)%nat
                  ∨ ∃ c, closes !! (length closes - 30)%nat = Some c ∧ c == 0)) →
  return_of (sym, df) = [].
Proof.
  intros [Hshort|Hrest]; [by apply return_of_short|].
  destruct (return_of (sym, df)) as [|e l] eqn:Hret; [done|]. exfalso.
  assert (e ∈ return_of (sym, df)) as He
    by (rewrite Hret; apply elem_of_cons; by left).
  apply return_of_entry in He
    as (df' & closes & cur & c & Hitem & _ & _ & Hclose & _ & Hlen & Hc & Hnz & _).
  injection Hitem as _ <-.
  destruct Hrest as [Hnone|(closes' & Hclose' & Hbad)]; [congruence|].
  rewrite Hclose in Hclose'. injection Hclose' as <-.
  destruct Hbad as [Hlt|(c' & Hc' & Hz)]; [lia|]. congruence.
Qed.


(** ** The dictionary of [fetch_yfinance_data] *)

Lemma fetch_one_stored history data n sym :
  fetch_one history data (n, sym)
  = match stored history n sym with
    | Some hist => dict_set data sym hist
    | None => data
    end.
Proof.
  unfold fetch_one, stored. destruct (history n sym) as [hist|]; [|done].
  by destruct (empty hist).
Qed.

Lemma stored_not_empty history n sym hist :
  stored history n sym = Some hist → empty hist = false.
Proof.
  unfold stored. destruct (history n sym) as [h|]; [|done].
  destruct (empty h) eqn:He; [done|]. by intros [= <-].
Qed.

Lemma fetch_yfinance_data_snoc history syms s :
  fetch_yfinance_data history (syms ++ [s])
  = fetch_one history (fetch_yfinance_data history syms) (length syms, s).
Proof.
  unfold fetch_yfinance_data. rewrite length_app. simpl.
  rewrite Nat.add_1_r, seq_S. simpl.
  rewrite zip_with_app by (by rewrite length_seq). by rewrite foldl_app.
Qed.

Lemma dict_set_keys {V} (data : list (string * V)) k v :
  (dict_set data k v).*1
  = if decide (k ∈ data.*1) then data.*1 else data.*1 ++ [k].
Proof.
  induction data as [|[k' v'] data IH].
  - destruct (decide (k ∈ [].*1)) as [Hin|_]; [|done].
    by apply elem_of_nil in Hin.
  - cbn [dict_set]. rewrite !fmap_cons. cbn [fst].
    destruct (decide (k' = k)) as [->|Hne].
    + rewrite decide_True; [done|]. apply elem_of_cons. by left.
    + rewrite fmap_cons, IH. cbn [fst].
      destruct (decide (k ∈ data.*1)) as [Hin|Hnot].
      * rewrite decide_True; [done|]. apply elem_of_cons. by right.
      * rewrite decide_False; [done|].
        intros [Heq|Hin]%elem_of_cons; [congruence|done].
Qed.

Lemma dict_set_Forall {V} (P : string * V → Prop) (data : list (string * V)) k v :
  Forall P data → P (k, v) → Forall P (dict_set data k v).
Proof.
  intros Hdata Hkv. induction Hdata as [|[k' v'] data Hx Hdata IH]; simpl.
  - by repeat constructor.
  - destruct (decide (k' = k)); by constructor.
Qed.

Lemma dict_set_elem_of {V} (data : list (string * V)) k v k' v' :
  NoDup data.*1 →
  (k', v') ∈ dict_set data k v
  ↔ (k' = k ∧ v' = v) ∨ (k' ≠ k ∧ (k', v') ∈ data).
Proof.
  induction data as [|[k0 v0] data IH]; simpl; intros Hnd.
  - rewrite list_elem_of_singleton. split.
    + intros [= -> ->]. by left.
    + intros [[-> ->]|[_ Hin]]; [done|by apply elem_of_nil in Hin].
  - apply NoDup_cons in Hnd as [Hk0 Hnd].
    destruct (decide (k0 = k)) as [->|Hne].
    + rewrite !elem_of_cons. split.
      * intros [[= -> ->]|Hin]; [by left|]. right. split; [|by right].
        intros ->. apply Hk0. apply list_elem_of_fmap. by exists (k, v').
      * intros [[-> ->]|[Hne [[= -> ->]|Hin]]]; [by left|done|by right].
    + rewrite !elem_of_cons, (IH Hnd). split.
      * intros [[= -> ->]|[[-> ->]|[Hk Hin]]].
        -- right. split; [done|by left].
        -- by left.
        -- right. split; [done|by right].
      * intros [[-> ->]|[Hk [[= -> ->]|Hin]]].
        -- right. by left.
        -- by left.
        -- right. right. done.
Qed.

Lemma fetch_yfinance_data_invariants history syms :
  NoDup (fetch_yfinance_data history syms).*1
  ∧ (fetch_yfinance_data history syms).*1 `sublist_of` syms
  ∧ Forall (λ item : string * HistFrame, empty item.2 = false)
      (fetch_yfinance_data history syms).
Proof.
  induction syms as [|s syms (Hnd & Hsub & Hne)] using rev_ind.
  - split; [constructor|]. split; [done|constructor].
  - rewrite fetch_yfinance_data_snoc, fetch_one_stored.
    destruct (stored history (length syms) s) as [hist|] eqn:Hst.
    + rewrite dict_set_keys.
      split; [|split].
      * destruct (decide (s ∈ _)) as [Hin|Hnot]; [done|].
        apply NoDup_app. split; [done|]. split; [|apply NoDup_singleton].
        intros x Hx Hs. apply list_elem_of_singleton in Hs as ->. done.
      * destruct (decide (s ∈ _)) as [Hin|Hnot].
        -- by apply sublist_inserts_r.
        -- by apply sublist_app.
      * apply dict_set_Forall; [done|]. simpl.
        by apply stored_not_empty in Hst.
    + split; [done|]. split; [by apply sublist_inserts_r|done].
Qed.

Lemma zip_seq_snoc {A} (l : list A) (x : A) :
  zip (seq 0 (length (l ++ [x]))) (l ++ [x])
  = zip (seq 0 (length l)) l ++ [(length l, x)].
Proof.
  rewrite length_app. simpl. rewrite Nat.add_1_r, seq_S. simpl.
  by rewrite zip_with_app by (by rewrite length_seq).
Qed.

Lemma dict_set_new {V} (data : list (string * V)) k v :
  k ∉ data.*1 → dict_set data k v = data ++ [(k, v)].
Proof.
  induction data as [|[k' v'] data IH]; [done|].
  rewrite fmap_cons, not_elem_of_cons. cbn [fst dict_set]. intros [Hne Hnot].
  rewrite decide_False by done. by rewrite IH.
Qed.

(** X10. The dictionary [fetch_yfinance_data] returns holds each symbol
    once at most, also when the symbol list names one twice; its keys
    stand in the order of the symbol list; no frame in it is empty; and
    for a symbol list without repetition it is the list of the answers
    that are frames with rows, each under its symbol, in the order of
    the requests. *)
Theorem fetch_yfinance_data_dictionary (history : History) (syms : list string) :
  NoDup (fetch_yfinance_data history syms).*1
  ∧ (fetch_yfinance_data history syms).*1 `sublist_of` syms
  ∧ Forall (λ item : string * HistFrame, empty item.2 = false)
      (fetch_yfinance_data history syms)
  ∧ (NoDup syms →
     fetch_yfinance_data history syms
     = omap (λ request : nat * string,
               (λ hist, (request.2, hist)) <$> stored history request.1 request.2)
         (zip (seq 0 (length syms)) syms)).
Proof.
  destruct (fetch_yfinance_data_invariants history syms) as (Hnd & Hsub & Hne).
  do 3 (split; [done|]). clear.
  induction syms as [|s syms IH] using rev_ind; intros Hsyms; [done|].
  apply NoDup_app in Hsyms as (Hsyms & Hnot & _).
  rewrite fetch_yfinance_data_snoc, fetch_one_stored, zip_seq_snoc, omap_app.
  rewrite <-(IH Hsyms). csimpl.
  destruct (stored history (length syms) s) as [hist|]; csimpl;
    [|by rewrite app_nil_r].
  apply dict_set_new. intros Hin.
  destruct (fetch_yfinance_data_invariants history syms) as (_ & Hsub & _).
  apply (sublist_subseteq _ _ Hsub) in Hin.
  apply (Hnot s Hin). apply list_elem_of_singleton. done.
Qed.

(** X11. The frame the dictionary holds for a symbol is the last
    answer for it that is a frame with rows: a symbol is a key exactly
    when one of its requests is answered so, a request that raises or
    is answered with an empty frame stores nothing and removes nothing,
    and a later frame with rows replaces an earlier one. *)
Theorem fetch_yfinance_data_last_answer (history : History)
    (syms : list string) (sym : string) (hist : HistFrame) :
  (sym, hist) ∈ fetch_yfinance_data history syms
  ↔ ∃ n, syms !! n = Some sym ∧ stored history n sym = Some hist
         ∧ ∀ m, (n < m)%nat → syms !! m = Some sym → stored history m sym = None.
Proof.
  revert sym hist. induction syms as [|s syms IH] using rev_ind; intros sym hist.
  - split; [by intros Hin%elem_of_nil|]. by intros (n & Hn & _).
  - destruct (fetch_yfinance_data_invariants history syms) as (Hnd & _ & _).
    rewrite fetch_yfinance_data_snoc, fetch_one_stored.
    assert (∀ m, (syms ++ [s]) !! m = Some sym →
              (m < length syms)%nat ∧ syms !! m = Some sym
              ∨ m = length syms ∧ s = sym) as Hsplit.
    { intros m Hm. apply lookup_app_Some in Hm as [Hm|[Hlen Hm]].
      - left. split; [by apply lookup_lt_Some in Hm|done].
      - right. apply list_lookup_singleton_Some in Hm as [Hm ->].
        split; [lia|done]. }
    destruct (stored history (length syms) s) as [h0|] eqn:Hst.
    + rewrite (dict_set_elem_of _ _ _ _ _ Hnd), IH. split.
      * intros [[-> ->]|[Hne (n & Hn & Hsn & Hlater)]].
        -- exists (length syms). split; [by apply list_lookup_middle|].
           split; [done|]. intros m Hm Hlook.
           apply lookup_lt_Some in Hlook. rewrite length_app in Hlook.
           simpl in Hlook. lia.
        -- exists n. split; [by apply lookup_app_l_Some|]. split; [done|].
           intros m Hm Hlook.
           destruct (Hsplit m Hlook) as [[_ Hl]|[_ Heq]]; [by apply Hlater|].
           congruence.
      * intros (n & Hn & Hsn & Hlater).
        destruct (Hsplit n Hn) as [[Hlt Hl]|[-> <-]].
        -- right. split.
           ++ intros ->.
              rewrite (Hlater (length syms)) in Hst;
                [done|done|by apply list_lookup_middle].
           ++ exists n. split; [done|]. split; [done|].
              intros m Hm Hlook. apply Hlater; [done|].
              by apply lookup_app_l_Some.
        -- left. split; [done|]. congruence.
    + rewrite IH. split.
      * intros (n & Hn & Hsn & Hlater). exists n.
        split; [by apply lookup_app_l_Some|]. split; [done|].
        intros m Hm Hlook.
        destruct (Hsplit m Hlook) as [[_ Hl]|[-> <-]]; [by apply Hlater|done].
      * intros (n & Hn & Hsn & Hlater).
        destruct (Hsplit n Hn) as [[Hlt Hl]|[-> <-]]; [|congruence].
        exists n. split; [done|]. split; [done|].
        intros m Hm Hlook. apply Hlater; [done|].
        by apply lookup_app_l_Some.
Qed.

Lemma fetched_returns_keys history syms result :
  (get_30day_returns (fetch_yfinance_data history syms)).2 = Ok result →
  NoDup result.*1 ∧ result.*1 ⊆ syms.
Proof.
  destruct (fetch_yfinance_data_invariants history syms) as (Hnd & Hsub & _).
  set (hist_data := fetch_yfinance_data history syms) in *.
  destruct (get_30day_returns_stable hist_data) as (result' & -> & Hperm & _).
  intros [= ->].
  assert (result.*1 ≡ₚ (hist_data ≫= return_of).*1) as Hkeys
    by by rewrite Hperm.
  pose proof (returns_sublist hist_data) as Hret. split.
  - rewrite Hkeys. by apply (sublist_NoDup _ _ Hnd).
  - intros sym Hin. apply (sublist_subseteq _ _ Hsub).
    apply (sublist_subseteq _ _ Hret). by rewrite <-Hkeys.
Qed.

Lemma fetched_extremes_keys history syms below_high above_low :
  (get_52week_analysis (fetch_yfinance_data history syms)).2
  = Ok (below_high, above_low) →
  NoDup (symbols below_high) ∧ NoDup (symbols above_low)
  ∧ symbols below_high ⊆ syms ∧ symbols above_low ⊆ syms.
Proof.
  destruct (fetch_yfinance_data_invariants history syms) as (Hnd & Hsub & _).
  set (hist_data := fetch_yfinance_data history syms) in *.
  rewrite get_52week_analysis_candidates.
  destruct (sorted ratio _ _) as [below|] eqn:Hbelow; [|done]. simpl.
  destruct (sorted _ _ (candidates_52week hist_data).2) as [above|]
    eqn:Habove; [|done].
  simpl. intros [= <- <-].
  destruct (NoDup_symbols_take below _ _ Hnd (symbols_below_sublist hist_data)
              (sorted_perm _ _ _ _ Hbelow)) as [? Hb].
  destruct (NoDup_symbols_take above _ _ Hnd (symbols_above_sublist hist_data)
              (sorted_perm _ _ _ _ Habove)) as [? Ha].
  do 2 (split; [done|]).
  split; intros sym Hin; apply (sublist_subseteq _ _ Hsub); auto.
Qed.


(** ** The symbols of [get_nifty50_symbols] *)

Lemma string_length_app (s t : string) :
  String.length (s +:+ t) = (String.length s + String.length t)%nat.
Proof. induction s as [|c s IH]; simpl; [done|]. by rewrite IH. Qed.

Lemma string_app_inj_r (t s1 s2 : string) : s1 +:+ t = s2 +:+ t → s1 = s2.
Proof.
  revert s2. induction s1 as [|a s1 IH]; intros [|b s2] Heq.
  - done.
  - apply (f_equal String.length) in Heq.
    rewrite !string_length_app in Heq. simpl in Heq. lia.
  - apply (f_equal String.length) in Heq.
    rewrite !string_length_app in Heq. simpl in Heq. lia.
  - cbn in Heq. injection Heq as -> Heq. f_equal. by apply IH.
Qed.

Lemma traverse_add_NS (col : list cell) (syms : list string) :
  traverse add_NS col = Ok syms ↔
  ∃ names, col = CStr <$> names ∧ syms = (λ s, s +:+ ".NS") <$> names.
Proof.
  split.
  - revert syms. induction col as [|c col IH]; intros syms; simpl.
    + intros [= <-]. by exists [].
    + destruct c as [s| |]; simpl; [|done..].
      destruct (traverse add_NS col) as [syms'|]; simpl; [|done].
      intros [= <-]. destruct (IH syms' eq_refl) as (names & -> & ->).
      by exists (s :: names).
  - intros (names & -> & ->). induction names as [|s names IH]; [done|].
    csimpl. by rewrite IH.
Qed.

Lemma traverse_add_NS_raises (col : list cell) e :
  traverse add_NS col = Raise e →
  e = TypeError ∧ ∃ c, c ∈ col ∧ ∀ s, c ≠ CStr s.
Proof.
  intros (c & Hc & Hraise)%traverse_raise.
  destruct c as [s| |]; simpl in Hraise; [done| |];
    injection Hraise as <-; (split; [done|]); eexists; (split; [exact Hc|]);
    done.
Qed.

Section fetcher_facts.
Context {J : Type} (DataFrame_of : J → attempt DataFrame).

(** X13. [get_nifty50_symbols] returns exactly when its own fetch
    returns a frame whose column [symbol] holds text only, and then it
    returns the texts of that column, in its order, each with [.NS]
    appended, distinct when the texts are; it fails with the exception
    of the fetch, with its own [Exception] when the frame has no column
    [symbol], and with a [TypeError] when a cell of the column is a
    number (the [nan] of a record without the field is one). *)
Theorem nifty50_symbols_outcome (response : attempt (gmap string J)) :
  match get_nifty50_symbols DataFrame_of response with
  | Done syms =>
      ∃ df names,
        fetch_live_data DataFrame_of response = Done df
        ∧ df !! "symbol" = Some (CStr <$> names)
        ∧ syms = (λ s, s +:+ ".NS") <$> names
        ∧ (NoDup names → NoDup syms)
  | Failed r =>
      fetch_live_data DataFrame_of response = Failed r
      ∨ ∃ df,
          fetch_live_data DataFrame_of response = Done df
          ∧ (df !! "symbol" = None
             ∧ r = Exception "Expected 'symbol' column not found in data."
             ∨ ∃ col c, df !! "symbol" = Some col ∧ c ∈ col
                        ∧ (∀ s, c ≠ CStr s) ∧ r = Builtin TypeError)
  end.
Proof.
  unfold get_nifty50_symbols.
  destruct (fetch_live_data DataFrame_of response) as [df|r]; [|by left].
  cbn [mbind attempt_bind].
  destruct (df !! "symbol") as [col|] eqn:Hcol.
  - destruct (traverse add_NS col) as [syms|e] eqn:Hsyms; cbn [lift].
    + apply traverse_add_NS in Hsyms as (names & -> & ->).
      exists df, names. do 3 (split; [done|]).
      apply NoDup_fmap_2. intros s1 s2. apply string_app_inj_r.
    + apply traverse_add_NS_raises in Hsyms as (-> & c & Hc & Hnot).
      right. exists df. split; [done|]. right. by exists col, c.
  - right. exists df. split; [done|]. by left.
Qed.

End fetcher_facts.

(** ** The lines of the report *)

Lemma height_le (n : nat) (df : DataFrame) :
  map_Forall (λ _ col, length col ≤ n) df → height df ≤ n.
Proof.
  unfold height.
  apply (map_fold_weak_ind
           (λ r (m : DataFrame), map_Forall (λ _ col, length col ≤ n) m → r ≤ n)).
  - lia.
  - intros name col m r Hname IH Hall.
    apply map_Forall_insert in Hall as [Hcol Hall]; [|done].
    specialize (IH Hall). lia.
Qed.

Section main_facts.
Context `{Argsort}.

Lemma height_head (n : nat) (df : DataFrame) : height (head n df) ≤ n.
Proof.
  apply height_le. unfold head. apply map_Forall_fmap.
  intros name col _. simpl. rewrite length_take. lia.
Qed.

Lemma get_top_gainers_losers_heads (live_df : DataFrame) gainers losers :
  (get_top_gainers_losers live_df).2 = Ok (gainers, losers) →
  height gainers ≤ 5 ∧ height losers ≤ 5.
Proof.
  destruct (live_df !! "pChange") as [col|] eqn:Hcol;
    [|unfold get_top_gainers_losers; by rewrite Hcol].
  destruct (traverse pchange_of_cell col) as [xs|e] eqn:Hxs;
    [|unfold get_top_gainers_losers; by rewrite Hcol, Hxs].
  rewrite (get_top_gainers_losers_ok live_df col xs Hcol Hxs). simpl.
  intros [= <- <-]. split; apply height_head.
Qed.

End main_facts.

Lemma get_52week_analysis_lengths hist below_high above_low :
  (get_52week_analysis hist).2 = Ok (below_high, above_low) →
  length below_high ≤ 5 ∧ length above_low ≤ 5.
Proof.
  rewrite get_52week_analysis_candidates.
  destruct (sorted ratio _ _) as [below|]; [|done]. simpl.
  destruct (sorted _ _ (candidates_52week hist).2) as [above|]; [|done].
  simpl. intros [= <- <-]. rewrite !length_take. lia.
Qed.

Lemma get_nifty50_symbols_Done {J} (DataFrame_of : J → attempt DataFrame)
    response syms :
  get_nifty50_symbols DataFrame_of response = Done syms →
  ∃ df names,
    fetch_live_data DataFrame_of response = Done df
    ∧ df !! "symbol" = Some (CStr <$> names)
    ∧ syms = (λ s, s +:+ ".NS") <$> names.
Proof.
  unfold get_nifty50_symbols.
  destruct (fetch_live_data DataFrame_of response) as [df|r]; [|done].
  cbn [mbind attempt_bind].
  destruct (df !! "symbol") as [col|] eqn:Hcol; [|done].
  destruct (traverse add_NS col) as [syms'|e] eqn:Hsyms; [|done].
  cbn [lift]. intros [= <-].
  apply traverse_add_NS in Hsyms as (names & -> & ->). by exists df, names.
Qed.

Section report.
Context `{Argsort} {J : Type} (world : Outside J).

(** X14. When [main] comes to write its report, every step before has
    returned: the table of the first answer of the API is ranked, the
    symbols are the texts of the column [symbol] of the second answer
    with [.NS] appended, and both analytics of the fetched histories
    have returned.  The report is the five sections in their order,
    each a header, its lines and a separator: one line per row of the
    gainers and of the losers, per entry of the two 52-week lists and
    per entry of the first five 30-day returns, so between 10 and 35
    lines; and the symbols of the last three sections are among those
    with [.NS]. *)
Theorem main_report lines gainers losers :
  main_output_lines world = Done (lines, (gainers, losers)) →
  ∃ live_df names below_high above_low returns glines llines,
    let hist_data :=
      fetch_yfinance_data (yf_history world) ((λ s, s +:+ ".NS") <$> names) in
    fetch_live_data (pandas_frame world) (api_response world 0%nat)
    = Done live_df
    ∧ (get_top_gainers_losers live_df).2 = Ok (gainers, losers)
    ∧ get_nifty50_symbols (pandas_frame world) (api_response world 1%nat)
      = Done ((λ s, s +:+ ".NS") <$> names)
    ∧ (get_52week_analysis hist_data).2 = Ok (below_high, above_low)
    ∧ (get_30day_returns hist_data).2 = Ok returns
    ∧ lines
      = ["----- Top 5 Gainers -----"] ++ glines
        ++ ["-------------------------" +:+ nl; "----- Top 5 Losers -----"]
        ++ llines
        ++ ["-------------------------" +:+ nl;
            "----- Stocks 30% Below 52-Week High -----"]
        ++ (high_line world <$> below_high)
        ++ ["-----------------------------------------" +:+ nl;
            "----- Stocks 20% Above 52-Week Low -----"]
        ++ (low_line world <$> above_low)
        ++ ["----------------------------------------" +:+ nl;
            "----- Top 5 Stocks by 30-Day Return -----"]
        ++ (return_line world <$> take 5 returns)
        ++ ["-----------------------------------------" +:+ nl]
    ∧ length glines = height gainers ∧ length llines = height losers
    ∧ 10 ≤ length lines ≤ 35
    ∧ symbols below_high ⊆ (λ s, s +:+ ".NS") <$> names
    ∧ symbols above_low ⊆ (λ s, s +:+ ".NS") <$> names
    ∧ returns.*1 ⊆ (λ s, s +:+ ".NS") <$> names.
Proof.
  unfold main_output_lines. intros Hrun.
  destruct (session_primed world) as [[]|]; [|done].
  cbn [mbind attempt_bind] in Hrun.
  destruct (fetch_live_data _ (api_response world 0%nat)) as [live_df|]
    eqn:Hlive; [|done].
  cbn [mbind attempt_bind] in Hrun.
  destruct (get_nifty50_symbols _ _) as [syms|] eqn:Hsyms; [|done].
  cbn [mbind attempt_bind] in Hrun.
  destruct (get_top_gainers_losers live_df).2 as [[g l]|] eqn:Hrank; [|done].
  cbn [mbind attempt_bind lift] in Hrun.
  destruct (traverse (quote_line world) (iterrows g)) as [glines|] eqn:Hg;
    [|done].
  cbn [mbind attempt_bind lift] in Hrun.
  destruct (traverse (quote_line world) (iterrows l)) as [llines|] eqn:Hl;
    [|done].
  cbn [mbind attempt_bind lift] in Hrun.
  destruct (get_52week_analysis _).2 as [[below_high above_low]|] eqn:Hweek;
    [|done].
  cbn [mbind attempt_bind lift] in Hrun.
  destruct (get_30day_returns _).2 as [returns|] eqn:Hret; [|done].
  cbn [mbind attempt_bind lift] in Hrun.
  injection Hrun as <- <- <-.
  apply get_nifty50_symbols_Done in Hsyms as (df & names & Hdf & Hcol & ->).
  exists live_df, names, below_high, above_low, returns, glines, llines.
  cbn zeta. do 5 (split; [done|]).
  apply length_traverse in Hg, Hl.
  unfold iterrows in Hg, Hl. rewrite length_fmap, length_seq in Hg, Hl.
  destruct (get_top_gainers_losers_heads _ _ _ Hrank) as [Hgh Hlh].
  destruct (get_52week_analysis_lengths _ _ _ Hweek) as [Hbl Hal].
  destruct (fetched_extremes_keys _ _ _ _ Hweek) as (_ & _ & Hbs & Has).
  destruct (fetched_returns_keys _ _ _ Hret) as [_ Hrs].
  split; [by rewrite <-!(assoc_L (++))|].
  do 2 (split; [done|]). split; [|done].
  rewrite length_cons, !length_app, !length_fmap, length_take.
  cbn [length]. lia.
Qed.

End report.

(** ** The lines of the quotes *)

Lemma height_ge (df : DataFrame) name col :
  df !! name = Some col → length col ≤ height df.
Proof.
  unfold height. revert name col.
  apply (map_fold_weak_ind
           (λ r (m : DataFrame),
              ∀ name col, m !! name = Some col → length col ≤ r)).
  - intros name col Hcol. by rewrite lookup_empty in Hcol.
  - intros name' col' m r Hnone IH name col Hcol.
    apply lookup_insert_Some in Hcol as [[_ <-]|[_ Hcol]]; [lia|].
    specialize (IH name col Hcol). lia.
Qed.

Lemma height_rectangular (df : DataFrame) m name col :
  rectangular df m → df !! name = Some col → height df = m.
Proof.
  intros Hrect Hcol. apply Nat.le_antisymm.
  - apply height_le. intros name' c Hc. by rewrite (Hrect name' c Hc).
  - rewrite <-(Hrect name col Hcol). by apply (height_ge _ name).
Qed.

Lemma traverse_Forall2 {A B} (f : A → result B) (l : list A) (l' : list B) :
  Forall2 (λ x y, f x = Ok y) l l' → traverse f l = Ok l'.
Proof.
  induction 1 as [|x y l l' Hxy _ IH]; [done|]. simpl. by rewrite Hxy, IH.
Qed.

(** X16. The lines of the gainers and the losers.  For a frame of full
    rows whose column [symbol] holds text and whose column [pChange]
    holds floats, the loop over [iterrows] raises nothing and gives,
    row by row from the top, the line
    [Symbol: <symbol>, % Change: <change with two decimals>%]. *)
Theorem quote_lines_format {J : Type} (world : Outside J) (df : DataFrame)
    (m : nat) (names : list string) (changes : list float) :
  rectangular df m →
  df !! "symbol" = Some (CStr <$> names) →
  df !! "pChange" = Some (CFloat <$> changes) →
  traverse (quote_line world) (iterrows df)
  = Ok (zip_with
          (λ sym change,
             "Symbol: " +:+ sym +:+ ", % Change: "
             +:+ print_fixed2 world change +:+ "%")
          names changes).
Proof.
  intros Hrect Hsym Hchange.
  assert (length names = m) as Hnames
    by (rewrite <-(length_fmap CStr); exact (Hrect _ _ Hsym)).
  assert (length changes = m) as Hchanges
    by (rewrite <-(length_fmap CFloat); exact (Hrect _ _ Hchange)).
  apply traverse_Forall2. unfold iterrows.
  rewrite (height_rectangular df m _ _ Hrect Hsym).
  apply Forall2_same_length_lookup_2.
  - rewrite length_fmap, length_seq, length_zip_with. lia.
  - intros i row line Hrow Hline.
    apply list_lookup_fmap_Some in Hrow as (j & -> & Hj).
    apply lookup_seq in Hj as [-> Hi]. simpl.
    apply lookup_zip_with_Some in Hline as (sym & change & -> & Hs & Hc).
    unfold quote_line, getcell. rewrite !lookup_omap, Hsym, Hchange. simpl.
    rewrite !list_lookup_fmap, Hs, Hc. done.
Qed.

(** ** What can end the run *)

Section failure.
Context `{ArgsortContract} {J : Type} (world : Outside J).

Lemma get_top_gainers_losers_Ok (live_df : DataFrame) gainers losers :
  (get_top_gainers_losers live_df).2 = Ok (gainers, losers) →
  ∃ col xs,
    live_df !! "pChange" = Some col ∧ traverse pchange_of_cell col = Ok xs
    ∧ gainers
      = head 5 (take_at (nargsort xs false)
                  <$> <["pChange" := CFloat <$> xs]> live_df)
    ∧ losers
      = head 5 (take_at (nargsort xs true)
                  <$> <["pChange" := CFloat <$> xs]> live_df).
Proof.
  destruct (live_df !! "pChange") as [col|] eqn:Hcol;
    [|unfold get_top_gainers_losers; by rewrite Hcol].
  destruct (traverse pchange_of_cell col) as [xs|e] eqn:Hxs;
    [|unfold get_top_gainers_losers; by rewrite Hcol, Hxs].
  rewrite (get_top_gainers_losers_ok live_df col xs Hcol Hxs). simpl.
  intros [= <- <-]. by exists col, xs.
Qed.

Lemma ranked_rectangular (live_df : DataFrame) n col xs ascending :
  rectangular live_df n →
  live_df !! "pChange" = Some col → traverse pchange_of_cell col = Ok xs →
  rectangular
    (head 5 (take_at (nargsort xs ascending)
               <$> <["pChange" := CFloat <$> xs]> live_df))
    (min 5 n).
Proof.
  intros Hrect Hcol Hxs name c. unfold head. rewrite !lookup_fmap.
  assert (length xs = n) as Hlen.
  { rewrite (length_traverse _ _ _ Hxs). by apply (Hrect "pChange"%string). }
  destruct (<["pChange" := CFloat <$> xs]> live_df !! name) as [c0|] eqn:Hc0;
    [|done].
  intros Hc. simpl in Hc. injection Hc as <-.
  assert (length c0 = n) as Hc0n.
  { destruct (decide (name = "pChange"%string)) as [->|Hne].
    - rewrite lookup_insert_eq in Hc0. injection Hc0 as <-.
      by rewrite length_fmap.
    - rewrite lookup_insert_ne in Hc0 by done. by apply (Hrect name). }
  rewrite length_take, length_take_at; [lia|].
  rewrite Hc0n, <-Hlen. apply nargsort_perm.
Qed.

Lemma quote_lines_raise (df : DataFrame) m ps e :
  rectangular df m → df !! "pChange" = Some (CFloat <$> ps) →
  traverse (quote_line world) (iterrows df) = Raise e →
  e = KeyError "symbol" ∧ df !! "symbol" = None ∧ (0 < m)%nat.
Proof.
  intros Hrect Hchange (row & Hrow & Hline)%traverse_raise.
  unfold iterrows in Hrow.
  apply list_elem_of_fmap in Hrow as (i & -> & Hi).
  apply elem_of_seq in Hi as [_ Hi]. simpl in Hi.
  assert (height df ≤ m) as Hheight.
  { apply height_le. intros name c Hc. by rewrite (Hrect name c Hc). }
  assert (length (CFloat <$> ps) = m) as Hps by by apply (Hrect "pChange"%string).
  destruct (lookup_lt_is_Some_2 (CFloat <$> ps) i) as [c Hc]; [lia|].
  assert (∃ x, c = CFloat x) as [x ->].
  { apply list_lookup_fmap_Some in Hc as (x & Hx & _). by exists x. }
  unfold quote_line, getcell in Hline. rewrite !lookup_omap in Hline.
  rewrite Hchange in Hline. simpl in Hline. rewrite Hc in Hline.
  destruct (df !! "symbol") as [syms|] eqn:Hsyms; simpl in Hline.
  - destruct (lookup_lt_is_Some_2 syms i) as [sym Hsym].
    { rewrite (Hrect _ _ Hsyms). lia. }
    rewrite Hsym in Hline. done.
  - injection Hline as <-. split; [done|]. split; [done|lia].
Qed.


End failure.

(** ** The further theorems at sample inputs *)

Lemma top_gainers_losers_extreme_witness :
  ∃ gi li,
    let stored := <["pChange" := CFloat <$> seven_changes]> seven_quotes in
    (@get_top_gainers_losers stable_quicksort seven_quotes).2
    = Ok (head 5 (take_at gi <$> stored), head 5 (take_at li <$> stored))
    ∧ gi ≡ₚ seq 0 (length seven_cells) ∧ li ≡ₚ seq 0 (length seven_cells)
    ∧ (∀ i j x y, i ∈ take 5 gi → j ∈ drop 5 gi →
         seven_changes !! i = Some x → seven_changes !! j = Some y →
         float_le y x)
    ∧ (∀ i j x y, i ∈ take 5 li → j ∈ drop 5 li →
         seven_changes !! i = Some x → seven_changes !! j = Some y →
         float_le x y).
Proof.
  apply (@top_gainers_losers_extreme stable_quicksort
           stable_quicksort_contract seven_quotes seven_cells seven_changes).
  - reflexivity.
  - reflexivity.
  - repeat constructor.
Defined.

Lemma missing_changes_rank_last_witness :
  ∃ gainers losers gs ls,
    (@get_top_gainers_losers stable_quicksort gappy_quotes).2
    = Ok (gainers, losers)
    ∧ gainers !! "pChange" = Some (CFloat <$> take 5 gs)
    ∧ losers !! "pChange" = Some (CFloat <$> take 5 ls)
    ∧ gs ≡ₚ [Fin 5; NaN; Fin (-3)] ∧ ls ≡ₚ [Fin 5; NaN; Fin (-3)]
    ∧ nan_last gs ∧ nan_last ls
    ∧ (5 ≤ length (filter (λ x, ¬ isna x) [Fin 5; NaN; Fin (-3)]) →
       Forall (λ x, isna x = false) (take 5 gs)
       ∧ Forall (λ x, isna x = false) (take 5 ls)).
Proof.
  apply (@missing_changes_rank_last stable_quicksort stable_quicksort_contract
           gappy_quotes [CFloat (Fin 5); CFloat NaN; CStr "-3.0%"]
           [Fin 5; NaN; Fin (-3)]).
  - reflexivity.
  - reflexivity.
Defined.


Lemma week52_symbols_distinct_witness :
  NoDup (symbols [("D"%string, 3, 10); ("C"%string, 40, 100);
                  ("G"%string, 20, 50); ("A"%string, 50, 100);
                  ("B"%string, 100, 200)])
  ∧ NoDup (symbols [("H"%string, 13, 10)])
  ∧ symbols [("D"%string, 3, 10); ("C"%string, 40, 100);
             ("G"%string, 20, 50); ("A"%string, 50, 100);
             ("B"%string, 100, 200)] ⊆ eight_series.*1
  ∧ symbols [("H"%string, 13, 10)] ⊆ eight_series.*1.
Proof.
  apply (week52_symbols_distinct eight_series).
  - apply (bool_decide_unpack (NoDup _)). by vm_compute.
  - reflexivity.
Defined.

Lemma main_report_witness :
  ∃ lines gainers losers,
    @main_output_lines stable_quicksort DataFrame sample_world
    = Done (lines, (gainers, losers))
    ∧ ∃ live_df names below_high above_low returns glines llines,
        let hist_data :=
          fetch_yfinance_data (yf_history sample_world)
            ((λ s, s +:+ ".NS") <$> names) in
        fetch_live_data (pandas_frame sample_world)
          (api_response sample_world 0%nat)
        = Done live_df
        ∧ (@get_top_gainers_losers stable_quicksort live_df).2
          = Ok (gainers, losers)
        ∧ get_nifty50_symbols (pandas_frame sample_world)
            (api_response sample_world 1%nat)
          = Done ((λ s, s +:+ ".NS") <$> names)
        ∧ (get_52week_analysis hist_data).2 = Ok (below_high, above_low)
        ∧ (get_30day_returns hist_data).2 = Ok returns
        ∧ lines
          = ["----- Top 5 Gainers -----"] ++ glines
            ++ ["-------------------------" +:+ nl; "----- Top 5 Losers -----"]
            ++ llines
            ++ ["-------------------------" +:+ nl;
                "----- Stocks 30% Below 52-Week High -----"]
            ++ (high_line sample_world <$> below_high)
            ++ ["-----------------------------------------" +:+ nl;
                "----- Stocks 20% Above 52-Week Low -----"]
            ++ (low_line sample_world <$> above_low)
            ++ ["----------------------------------------" +:+ nl;
                "----- Top 5 Stocks by 30-Day Return -----"]
            ++ (return_line sample_world <$> take 5 returns)
            ++ ["-----------------------------------------" +:+ nl]
        ∧ length glines = height gainers ∧ length llines = height losers
        ∧ 10 ≤ length lines ≤ 35
        ∧ symbols below_high ⊆ (λ s, s +:+ ".NS") <$> names
        ∧ symbols above_low ⊆ (λ s, s +:+ ".NS") <$> names
        ∧ returns.*1 ⊆ (λ s, s +:+ ".NS") <$> names.
Proof.
  eexists _, _, _. split; [vm_compute; reflexivity|].
  apply (@main_report stable_quicksort DataFrame sample_world).
  vm_compute. reflexivity.
Defined.


Lemma quote_lines_format_witness :
  traverse (quote_line sample_world) (iterrows spec_quotes)
  = Ok (zip_with
          (λ sym change,
             "Symbol: " +:+ sym +:+ ", % Change: "
             +:+ print_fixed2 sample_world change +:+ "%")
          ["A"; "B"; "C"; "D"]%string [Fin 5; Fin (-3); Fin 5; Fin (-3)]).
Proof.
  apply (quote_lines_format sample_world spec_quotes 4).
  - apply (bool_decide_unpack (rectangular _ _)). by vm_compute.
  - reflexivity.
  - reflexivity.
Defined.
